(** * scripts/export_telethon_session.py

    A shallow embedding of the Telethon session export script and the
    properties of the session bundle it writes.

    Python values are modelled as the script sees them: a [str] is a
    sequence of Unicode code points, a [dict] is an association list in
    insertion order, the result of [json.load] is a JSON tree, and a call
    that may raise returns in an error monad. *)

From Stdlib Require Import List ZArith NArith Bool Lia String Ascii.
From Stdlib Require Import Decimal DecimalFacts DecimalPos DecimalN DecimalZ.
Import ListNotations.

Set Warnings "-register-all".

Local Open Scope Z_scope.
Local Open Scope list_scope.

(** ** Python strings *)

Module PyStr.

(** A Python [str]: the list of its code points. *)
Definition pystr := list N.

(** A string literal of the source (ASCII only). *)
Definition lit (s : string) : pystr :=
  List.map N_of_ascii (list_ascii_of_string s).

Definition eqb (a b : pystr) : bool :=
  if list_eq_dec N.eq_dec a b then true else false.

(** [str.isspace] on one code point: the code points CPython's
    [_PyUnicode_IsWhitespace] accepts. *)
Definition isspace (c : N) : bool :=
  ((9 <=? c) && (c <=? 13) || (28 <=? c) && (c <=? 32)
   || (c =? 133) || (c =? 160) || (c =? 5760)
   || (8192 <=? c) && (c <=? 8202)
   || (c =? 8232) || (c =? 8233) || (c =? 8239) || (c =? 8287)
   || (c =? 12288))%N.

Fixpoint lstrip (s : pystr) : pystr :=
  match s with
  | [] => []
  | c :: r => if isspace c then lstrip r else s
  end.

Definition rstrip (s : pystr) : pystr := List.rev (lstrip (List.rev s)).

(** [s.strip()] with no argument. *)
Definition strip (s : pystr) : pystr := rstrip (lstrip s).

(** Truth value of a [str]: non-empty. *)
Definition nonempty (s : pystr) : bool :=
  match s with [] => false | _ :: _ => true end.

(** [needle in haystack] for strings. *)
Fixpoint prefixb (p s : pystr) : bool :=
  match p, s with
  | [], _ => true
  | _ :: _, [] => false
  | a :: p', b :: s' => (a =? b)%N && prefixb p' s'
  end.

Fixpoint contains (needle hay : pystr) : bool :=
  prefixb needle hay ||
  match hay with
  | [] => false
  | _ :: hay' => contains needle hay'
  end.

End PyStr.

Import PyStr.

(** ** Python values read from JSON *)

(** A Python [float], by its IEEE kind; a finite value is
    [(-1)^negative * mantissa * 2^exponent]. *)
Inductive pyfloat : Type :=
| FNaN
| FInf (negative : bool)
| FFinite (negative : bool) (mantissa : N) (exponent : Z).

(** What [json.load] returns, and what [json.dump] accepts here. A [dict]
    keeps its keys in insertion order. *)
Inductive json : Type :=
| JNull
| JBool (b : bool)
| JInt (z : Z)
| JFloat (f : pyfloat)
| JStr (s : pystr)
| JList (items : list json)
| JDict (entries : list (pystr * json)).

(** [bool(v)], as [not v] and [v or w] use it. *)
Definition truthy (v : json) : bool :=
  match v with
  | JNull => false
  | JBool b => b
  | JInt z => negb (z =? 0)
  | JFloat FNaN => true
  | JFloat (FInf _) => true
  | JFloat (FFinite _ m _) => negb (m =? 0)%N
  | JStr s => nonempty s
  | JList items => match items with [] => false | _ => true end
  | JDict entries => match entries with [] => false | _ => true end
  end.

(** [d.get(key)] on a dict: the value, or [None]. *)
Fixpoint dict_get (d : list (pystr * json)) (key : pystr) : json :=
  match d with
  | [] => JNull
  | (k, v) :: rest => if PyStr.eqb k key then v else dict_get rest key
  end.

Fixpoint dict_lookup (d : list (pystr * json)) (key : pystr) : option json :=
  match d with
  | [] => None
  | (k, v) :: rest => if PyStr.eqb k key then Some v else dict_lookup rest key
  end.

Definition dict_keys (d : list (pystr * json)) : list pystr := List.map fst d.

(** ** Exceptions *)

(** The exceptions of a run. [SystemExit] is a [BaseException] that is not
    an [Exception]; every other failure of the script is an [Exception],
    kept with its class name and its [str()]. *)
Inductive exn : Type :=
| SystemExit (message : pystr)
| Exception (cls : pystr) (message : pystr).

Definition Result (A : Type) : Type := (exn + A)%type.

Definition ret {A : Type} (a : A) : Result A := inr a.
Definition raise {A : Type} (e : exn) : Result A := inl e.
Definition bind {A B : Type} (m : Result A) (k : A -> Result B) : Result B :=
  match m with
  | inl e => inl e
  | inr a => k a
  end.

Notation "x <- m ;; k" := (bind m (fun x => k))
  (at level 61, m at next level, right associativity).

(** [type(o).__name__] of a decoded JSON value. *)
Definition type_name (v : json) : pystr :=
  match v with
  | JNull => lit "NoneType"
  | JBool _ => lit "bool"
  | JInt _ => lit "int"
  | JFloat _ => lit "float"
  | JStr _ => lit "str"
  | JList _ => lit "list"
  | JDict _ => lit "dict"
  end.

(** [o.get(key)]: only a dict has the method. *)
Definition py_get (o : json) (key : pystr) : Result json :=
  match o with
  | JDict d => ret (dict_get d key)
  | _ => raise (Exception (lit "AttributeError")
                  (lit "'" ++ type_name o ++ lit "' object has no attribute 'get'"))
  end.

(** ** [json.dump(obj, fh, ensure_ascii=False, indent=2)] *)

Module Encoder.

Definition hex_digit (n : N) : N :=
  (if n <? 10 then 48 + n else 87 + n)%N.

(** One character of a string, as [py_encode_basestring] writes it: the
    quote, the backslash and the control characters are escaped, every
    other code point is written as it is. *)
Definition escape_char (c : N) : pystr :=
  (if c =? 34 then lit "\" ++ [34]
   else if c =? 92 then lit "\\"
   else if c =? 10 then lit "\n"
   else if c =? 13 then lit "\r"
   else if c =? 9 then lit "\t"
   else if c =? 8 then lit "\b"
   else if c =? 12 then lit "\f"
   else if c <? 32 then lit "\u00" ++ [hex_digit (c / 16); hex_digit (c mod 16)]
   else [c])%N.

Definition encode_basestring (s : pystr) : pystr :=
  [34%N] ++ List.flat_map escape_char s ++ [34%N].

(** The decimal digits of [d], most significant first. *)
Fixpoint digits (d : uint) : pystr :=
  match d with
  | Nil => []
  | D0 d' => 48%N :: digits d'
  | D1 d' => 49%N :: digits d'
  | D2 d' => 50%N :: digits d'
  | D3 d' => 51%N :: digits d'
  | D4 d' => 52%N :: digits d'
  | D5 d' => 53%N :: digits d'
  | D6 d' => 54%N :: digits d'
  | D7 d' => 55%N :: digits d'
  | D8 d' => 56%N :: digits d'
  | D9 d' => 57%N :: digits d'
  end.

(** [int.__repr__]: the decimal digits, after a minus sign for a negative
    number. *)
Definition intstr (z : Z) : pystr :=
  match Z.to_int z with
  | Pos d => digits d
  | Neg d => 45%N :: digits d
  end.

(** [sep.join(parts)]. *)
Fixpoint join (sep : pystr) (parts : list pystr) : pystr :=
  match parts with
  | [] => []
  | [p] => p
  | p :: rest => p ++ sep ++ join sep rest
  end.

(** ['\n' + indent * level] with [indent = '  ']. *)
Definition newline_indent (level : nat) : pystr :=
  10%N :: List.repeat 32%N (2 * level).

Section WithFloatRepr.

(** [float.__repr__] on a finite float, the shortest decimal text that
    reads back as the same float. *)
Variable float_repr : pyfloat -> pystr.

Definition floatstr (f : pyfloat) : pystr :=
  match f with
  | FNaN => lit "NaN"
  | FInf false => lit "Infinity"
  | FInf true => lit "-Infinity"
  | FFinite _ _ _ => float_repr f
  end.

(** [_iterencode(o, level)], with the item separator [','] and the key
    separator [': '] that [indent=2] selects. *)
Fixpoint iterencode (level : nat) (o : json) : pystr :=
  match o with
  | JNull => lit "null"
  | JBool true => lit "true"
  | JBool false => lit "false"
  | JInt z => intstr z
  | JFloat f => floatstr f
  | JStr s => encode_basestring s
  | JList [] => lit "[]"
  | JList items =>
      lit "[" ++ newline_indent (S level)
      ++ join (lit "," ++ newline_indent (S level))
              (List.map (iterencode (S level)) items)
      ++ newline_indent level ++ lit "]"
  | JDict [] => lit "{}"
  | JDict entries =>
      lit "{" ++ newline_indent (S level)
      ++ join (lit "," ++ newline_indent (S level))
              (List.map (fun kv => encode_basestring (fst kv) ++ lit ": "
                                   ++ iterencode (S level) (snd kv)) entries)
      ++ newline_indent level ++ lit "}"
  end.

Definition dumps (o : json) : pystr := iterencode 0 o.

End WithFloatRepr.

End Encoder.

(** ** [json.load(fh)] *)

Module Decoder.

(** [WHITESPACE]: blank, tab, line feed, carriage return. *)
Definition is_ws (c : N) : bool :=
  ((c =? 32) || (c =? 9) || (c =? 10) || (c =? 13))%N.

Fixpoint skip_ws (s : pystr) : pystr :=
  match s with
  | [] => []
  | c :: r => if is_ws c then skip_ws r else s
  end.

Definition is_digit (c : N) : bool := ((48 <=? c) && (c <=? 57))%N.

(** The longest run of ASCII digits at the start of [s], and what follows. *)
Fixpoint span_digits (s : pystr) : pystr * pystr :=
  match s with
  | [] => ([], [])
  | c :: r =>
      if is_digit c then let (ds, rest) := span_digits r in (c :: ds, rest)
      else ([], s)
  end.

(** [s] without the prefix [p], when it starts with it. *)
Fixpoint strip_prefix (p s : pystr) : option pystr :=
  match p, s with
  | [], _ => Some s
  | _ :: _, [] => None
  | a :: p', b :: s' => if (a =? b)%N then strip_prefix p' s' else None
  end.

Definition hex_value (c : N) : option N :=
  (if (48 <=? c) && (c <=? 57) then Some (c - 48)
   else if (65 <=? c) && (c <=? 70) then Some (c - 55)
   else if (97 <=? c) && (c <=? 102) then Some (c - 87)
   else None)%N.

(** [_decode_uXXXX]: the four hexadecimal digits after [\u]. *)
Definition decode_uXXXX (a b c d : N) : option N :=
  match hex_value a, hex_value b, hex_value c, hex_value d with
  | Some x, Some y, Some z, Some t => Some (((x * 16 + y) * 16 + z) * 16 + t)%N
  | _, _, _, _ => None
  end.

(** [BACKSLASH]: the one-letter escapes. *)
Definition backslash (esc : N) : option N :=
  (if esc =? 34 then Some 34
   else if esc =? 92 then Some 92
   else if esc =? 47 then Some 47
   else if esc =? 98 then Some 8
   else if esc =? 102 then Some 12
   else if esc =? 110 then Some 10
   else if esc =? 114 then Some 13
   else if esc =? 116 then Some 9
   else None)%N.

(** The low half of a surrogate pair written as [\uXXXX] at the start of
    [s], with what follows it. *)
Definition low_surrogate (s : pystr) : option (N * pystr) :=
  match s with
  | bs :: u :: a :: b :: c :: d :: r =>
      if ((bs =? 92) && (u =? 117))%N then
        match decode_uXXXX a b c d with
        | Some uni2 =>
            if ((56320 <=? uni2) && (uni2 <=? 57343))%N then Some (uni2, r)
            else None
        | None => None
        end
      else None
  | _ => None
  end.

(** [scanstring(s, end, strict=True)], from just after the opening quote:
    the decoded string and what follows the closing quote. *)
Fixpoint scanstring (s : pystr) : option (pystr * pystr) :=
  match s with
  | [] => None
  | c :: r =>
      if (c =? 34)%N then Some ([], r)
      else if (c =? 92)%N then
        match r with
        | [] => None
        | esc :: r1 =>
            if (esc =? 117)%N then
              match r1 with
              | a :: b :: c4 :: d :: r2 =>
                  match decode_uXXXX a b c4 d with
                  | None => None
                  | Some uni =>
                      if ((55296 <=? uni) && (uni <=? 56319))%N then
                        match r2 with
                        | bs :: u :: a' :: b' :: c' :: d' :: r3 =>
                            match low_surrogate (bs :: u :: a' :: b' :: c' :: d' :: [])
                            with
                            | Some (uni2, _) =>
                                match scanstring r3 with
                                | Some (str, rest) =>
                                    Some ((65536 + (uni - 55296) * 1024
                                           + (uni2 - 56320))%N :: str, rest)
                                | None => None
                                end
                            | None =>
                                match scanstring r2 with
                                | Some (str, rest) => Some (uni :: str, rest)
                                | None => None
                                end
                            end
                        | _ =>
                            match scanstring r2 with
                            | Some (str, rest) => Some (uni :: str, rest)
                            | None => None
                            end
                        end
                      else
                        match scanstring r2 with
                        | Some (str, rest) => Some (uni :: str, rest)
                        | None => None
                        end
                  end
              | _ => None
              end
            else
              match backslash esc with
              | None => None
              | Some char =>
                  match scanstring r1 with
                  | Some (str, rest) => Some (char :: str, rest)
                  | None => None
                  end
              end
        end
      else if (c <? 32)%N then None
      else
        match scanstring r with
        | Some (str, rest) => Some (c :: str, rest)
        | None => None
        end
  end.

(** The value of a run of ASCII digits. *)
Definition digits_value (ds : pystr) : N :=
  List.fold_left (fun acc c => (acc * 10 + (c - 48))%N) ds 0%N.

(** [NUMBER_RE]: the integer part, the fraction and the exponent of the
    number at the start of [s], and what follows. *)
Definition match_integer (s : pystr) : option (pystr * pystr) :=
  let (sign, body) :=
    match s with
    | c :: r => if (c =? 45)%N then ([45%N], r) else ([], s)
    | [] => ([], s)
    end in
  match body with
  | c :: r =>
      if (c =? 48)%N then Some (sign ++ [48%N], r)
      else if is_digit c then
        let (ds, rest) := span_digits r in Some (sign ++ c :: ds, rest)
      else None
  | [] => None
  end.

Definition match_frac (s : pystr) : pystr * pystr :=
  match s with
  | c :: r =>
      if (c =? 46)%N then
        match span_digits r with
        | ([], _) => ([], s)
        | (ds, rest) => (c :: ds, rest)
        end
      else ([], s)
  | [] => ([], s)
  end.

Definition match_exp (s : pystr) : pystr * pystr :=
  match s with
  | c :: r =>
      if ((c =? 101) || (c =? 69))%N then
        let (sign, body) :=
          match r with
          | c' :: r' => if ((c' =? 45) || (c' =? 43))%N then ([c'], r') else ([], r)
          | [] => ([], r)
          end in
        match span_digits body with
        | ([], _) => ([], s)
        | (ds, rest) => (c :: sign ++ ds, rest)
        end
      else ([], s)
  | [] => ([], s)
  end.

(** [int(text)] on a matched integer part; the limit on the number of
    its digits is with the runtime, see [load_limit]. *)
Definition parse_int (text : pystr) : Z :=
  match text with
  | c :: r => if (c =? 45)%N then - Z.of_N (digits_value r)
              else Z.of_N (digits_value text)
  | [] => 0
  end.

(** [dict(pairs)]: a key seen again keeps its place and takes the later
    value. *)
Fixpoint dict_set (d : list (pystr * json)) (key : pystr) (value : json)
  : list (pystr * json) :=
  match d with
  | [] => [(key, value)]
  | (k, v) :: rest =>
      if PyStr.eqb k key then (k, value) :: rest
      else (k, v) :: dict_set rest key value
  end.

Definition dict_of_pairs (pairs : list (pystr * json)) : list (pystr * json) :=
  List.fold_left (fun d kv => dict_set d (fst kv) (snd kv)) pairs [].

Section WithFloat.

(** [float(text)] on a matched number with a fraction or an exponent. *)
Variable float_of_token : pystr -> pyfloat.

(** The number branch of [scan_once]. *)
Definition scan_number (s : pystr) : option (json * pystr) :=
  match match_integer s with
  | None => None
  | Some (integer, r) =>
      let (frac, r1) := match_frac r in
      let (exp, r2) := match_exp r1 in
      match frac, exp with
      | [], [] => Some (JInt (parse_int integer), r2)
      | _, _ => Some (JFloat (float_of_token (integer ++ frac ++ exp)), r2)
      end
  end.

(** The constants [scan_once] tries when no number matches. *)
Definition scan_constant (s : pystr) : option (json * pystr) :=
  match strip_prefix (lit "NaN") s with
  | Some r => Some (JFloat FNaN, r)
  | None =>
      match strip_prefix (lit "Infinity") s with
      | Some r => Some (JFloat (FInf false), r)
      | None =>
          match strip_prefix (lit "-Infinity") s with
          | Some r => Some (JFloat (FInf true), r)
          | None => None
          end
      end
  end.

(** [scan_once], [JSONArray] and [JSONObject]. The recursion of the
    Python functions is on the text; here [fuel] bounds it, one unit for
    each call. [array_items] starts at a value, [object_items] just after
    the opening quote of a key. *)
Fixpoint scan_once (fuel : nat) (s : pystr) {struct fuel} : option (json * pystr) :=
  match fuel with
  | O => None
  | S fuel' =>
      match s with
      | [] => None
      | c :: r =>
          if (c =? 34)%N then
            match scanstring r with
            | Some (str, rest) => Some (JStr str, rest)
            | None => None
            end
          else if (c =? 123)%N then
            match skip_ws r with
            | c' :: r' =>
                if (c' =? 125)%N then Some (JDict [], r')
                else if (c' =? 34)%N then
                  match object_items fuel' r' with
                  | Some (pairs, rest) => Some (JDict (dict_of_pairs pairs), rest)
                  | None => None
                  end
                else None
            | [] => None
            end
          else if (c =? 91)%N then
            match skip_ws r with
            | c' :: r' =>
                if (c' =? 93)%N then Some (JList [], r')
                else
                  match array_items fuel' (c' :: r') with
                  | Some (values, rest) => Some (JList values, rest)
                  | None => None
                  end
            | [] => None
            end
          else
            match strip_prefix (lit "null") s with
            | Some rest => Some (JNull, rest)
            | None =>
            match strip_prefix (lit "true") s with
            | Some rest => Some (JBool true, rest)
            | None =>
            match strip_prefix (lit "false") s with
            | Some rest => Some (JBool false, rest)
            | None =>
            match scan_number s with
            | Some res => Some res
            | None => scan_constant s
            end end end end
      end
  end
with array_items (fuel : nat) (s : pystr) {struct fuel}
  : option (list json * pystr) :=
  match fuel with
  | O => None
  | S fuel' =>
      match scan_once fuel' s with
      | None => None
      | Some (value, r) =>
          match skip_ws r with
          | c :: r' =>
              if (c =? 93)%N then Some ([value], r')
              else if (c =? 44)%N then
                match array_items fuel' (skip_ws r') with
                | Some (values, rest) => Some (value :: values, rest)
                | None => None
                end
              else None
          | [] => None
          end
      end
  end
with object_items (fuel : nat) (s : pystr) {struct fuel}
  : option (list (pystr * json) * pystr) :=
  match fuel with
  | O => None
  | S fuel' =>
      match scanstring s with
      | None => None
      | Some (key, r) =>
          match skip_ws r with
          | c :: r1 =>
              if (c =? 58)%N then
                match scan_once fuel' (skip_ws r1) with
                | None => None
                | Some (value, r2) =>
                    match skip_ws r2 with
                    | c' :: r3 =>
                        if (c' =? 125)%N then Some ([(key, value)], r3)
                        else if (c' =? 44)%N then
                          match skip_ws r3 with
                          | q :: r4 =>
                              if (q =? 34)%N then
                                match object_items fuel' r4 with
                                | Some (pairs, rest) =>
                                    Some ((key, value) :: pairs, rest)
                                | None => None
                                end
                              else None
                          | [] => None
                          end
                        else None
                    | [] => None
                    end
                end
              else None
          | [] => None
          end
      end
  end.

(** [json.loads(s)], the limits of the interpreter aside (the depth of
    nesting the recursion limit allows is with the runtime, see
    [load_limit]): one value, blanks around it allowed, nothing after; a
    text that starts with a byte order mark is refused. A text that holds
    a value has a character for each call it takes to read it, so its
    length is the fuel. *)
Definition loads (s : pystr) : option json :=
  match s with
  | 65279%N :: _ => None
  | _ =>
      match scan_once (S (List.length s)) (skip_ws s) with
      | Some (value, rest) =>
          match skip_ws rest with
          | [] => Some value
          | _ :: _ => None
          end
      | None => None
      end
  end.

End WithFloat.

End Decoder.

(** ** The UTF-8 codec of the files *)

(** Both files are opened with [encoding="utf-8"]: the text written goes
    through the encoder, the bytes read through the decoder, each with
    its default error handler, [strict]. A byte is a number below 256. *)
Module Utf8.

(** A surrogate code point, U+D800 to U+DFFF: a [str] can hold one, the
    encoder refuses it. *)
Definition is_surrogate (c : N) : bool := ((55296 <=? c) && (c <=? 57343))%N.

(** The bytes of one code point. *)
Definition encode_char (c : N) : option (list N) :=
  (if c <? 128 then Some [c]
   else if c <? 2048 then Some [192 + c / 64; 128 + c mod 64]
   else if is_surrogate c then None
   else if c <? 65536 then
     Some [224 + c / 4096; 128 + (c / 64) mod 64; 128 + c mod 64]
   else if c <? 1114112 then
     Some [240 + c / 262144; 128 + (c / 4096) mod 64;
           128 + (c / 64) mod 64; 128 + c mod 64]
   else None)%N.

(** [text.encode("utf-8")]: [None] stands for [UnicodeEncodeError]. *)
Fixpoint encode (text : list N) : option (list N) :=
  match text with
  | [] => Some []
  | c :: rest =>
      match encode_char c, encode rest with
      | Some bytes, Some more => Some (bytes ++ more)
      | _, _ => None
      end
  end.

(** A continuation byte, [80] to [BF]. *)
Definition is_continuation (b : N) : bool := ((128 <=? b) && (b <=? 191))%N.

(** [data.decode("utf-8")]: the well-formed sequences of one to four
    bytes, shortest form only, no surrogate, nothing above U+10FFFF;
    [None] stands for [UnicodeDecodeError]. *)
Fixpoint decode (data : list N) : option (list N) :=
  match data with
  | [] => Some []
  | b0 :: r0 =>
      (if b0 <? 128 then
         match decode r0 with
         | Some text => Some (b0 :: text)
         | None => None
         end
       else if (194 <=? b0) && (b0 <=? 223) then
         match r0 with
         | b1 :: r1 =>
             if is_continuation b1 then
               match decode r1 with
               | Some text => Some ((b0 - 192) * 64 + (b1 - 128) :: text)
               | None => None
               end
             else None
         | _ => None
         end
       else if (224 <=? b0) && (b0 <=? 239) then
         match r0 with
         | b1 :: b2 :: r2 =>
             if is_continuation b1 && is_continuation b2
                && negb ((b0 =? 224) && (b1 <? 160))
                && negb ((b0 =? 237) && (159 <? b1)) then
               match decode r2 with
               | Some text =>
                   Some ((b0 - 224) * 4096 + (b1 - 128) * 64 + (b2 - 128) :: text)
               | None => None
               end
             else None
         | _ => None
         end
       else if (240 <=? b0) && (b0 <=? 244) then
         match r0 with
         | b1 :: b2 :: b3 :: r3 =>
             if is_continuation b1 && is_continuation b2 && is_continuation b3
                && negb ((b0 =? 240) && (b1 <? 144))
                && negb ((b0 =? 244) && (143 <? b1)) then
               match decode r3 with
               | Some text =>
                   Some ((b0 - 240) * 262144 + (b1 - 128) * 4096
                         + (b2 - 128) * 64 + (b3 - 128) :: text)
               | None => None
               end
             else None
         | _ => None
         end
       else None)%N
  end.

End Utf8.

(** ** The script *)

(** A [pathlib.Path] argument: its text ([str(p)]) and its [stem], the
    final component without its suffix. *)
Record path : Type := Path { path_str : pystr; path_stem : pystr }.

(** The command line as [argparse] receives it: the three required paths,
    and each optional flag given or not. *)
Record CommandLine : Type := {
  opt_metadata : path;
  opt_session : path;
  opt_output : path;
  opt_name : option pystr;
  opt_pool : option pystr;
  opt_api_id : option Z;
  opt_api_hash : option pystr
}.

(** The namespace [parser.parse_args()] returns. *)
Record Args : Type := {
  metadata : path;
  session : path;
  output : path;
  name : pystr;
  pool : pystr;
  api_id : option Z;
  api_hash : option pystr
}.

(** What [parser.parse_args()] makes of [sys.argv]: it prints the help and
    exits with status 0 ([-h], [--help]); it refuses the command line (a
    required flag is missing, [--api-id] is not an integer, an argument is
    unknown), prints the usage and the line [prog: error: message] on the
    standard error stream and exits with status 2; or it returns the
    namespace of the command line it has parsed. *)
Inductive Invocation : Type :=
| ShowHelp
| Refused (error_line : pystr)
| Parsed (c : CommandLine).

(** The namespace of a parsed command line: [--name] defaults to the
    empty string, [--pool] to ["default"], [--api-id] and [--api-hash] to
    [None]. *)
Definition parse_args (c : CommandLine) : Args := {|
  metadata := opt_metadata c;
  session := opt_session c;
  output := opt_output c;
  name := match opt_name c with Some n => n | None => lit "" end;
  pool := match opt_pool c with Some p => p | None => lit "default" end;
  api_id := opt_api_id c;
  api_hash := opt_api_hash c
|}.

(** The parts of the Python runtime taken as given: [float.__repr__] on a
    finite float, [float(text)] on the text of a number, the message of
    the [JSONDecodeError] that [json.load] raises on a text it refuses,
    and the limits of the interpreter. [load_limit text] is the error
    [json.load] ends with when the text goes over a limit before it is
    read: [RecursionError] when its lists and objects nest deeper than the
    recursion limit leaves room for, [ValueError] when an integer has more
    digits than [sys.get_int_max_str_digits()]; [None] when no limit is
    met. [dump_limit value] is the same for [json.dump]: [RecursionError]
    for a nesting too deep, [ValueError] for an integer of too many
    digits. [codec_error data] is the message of the
    [UnicodeEncodeError] or [UnicodeDecodeError] the UTF-8 codec raises
    on the text or the bytes it refuses. *)
Record Runtime : Type := {
  repr_float : pyfloat -> pystr;
  parse_float : pystr -> pyfloat;
  decode_error : pystr -> pystr;
  load_limit : pystr -> option exn;
  dump_limit : json -> option exn;
  codec_error : list N -> pystr
}.

(** What the script reaches outside itself: the text of the metadata
    file, the Telethon client that opens the SQLite session with the
    credentials and saves it as a [StringSession], and the output step.
    [write_output p text] is the whole of lines 104 to 107 on the text
    [json.dump] produces: [mkdir] of the parent, [open] for writing (which
    empties the file), the writes through the UTF-8 codec, the final line
    feed and the close; it fails with whatever one of them raises, an
    [OSError] of the file system, the [UnicodeEncodeError] of the codec
    on a surrogate, an error of [json.dump] at a limit of the
    interpreter. [left_behind p text] is what the path holds after a
    failed [write_output p text]: [None] when the file was never opened,
    the text that got written (possibly none) when it was. *)
Record World : Type := {
  read_text : path -> Result pystr;
  string_session_save : pystr -> json -> json -> Result pystr;
  write_output : path -> pystr -> Result unit;
  left_behind : path -> pystr -> option pystr
}.

(** [json.load] on the text of a file: the limits of the interpreter, then
    the grammar. An exception is kept under the name its traceback shows:
    the class name, qualified by its module unless it is a builtin. *)
Definition json_load (rt : Runtime) (text : pystr) : Result json :=
  match load_limit rt text with
  | Some e => raise e
  | None =>
      match Decoder.loads (parse_float rt) text with
      | Some value => ret value
      | None =>
          raise (Exception (lit "json.decoder.JSONDecodeError")
                   (decode_error rt text))
      end
  end.

(** The bytes lines 104 to 107 put in the output file when every step of
    theirs succeeds: [json.dump] of the bundle and a line feed, through
    the UTF-8 encoder (the line separator of the platform is taken to be
    the line feed). It fails where [json.dump] meets a limit of the
    interpreter and where the text holds a surrogate. *)
Definition encode_bundle (rt : Runtime) (bundle : json) : Result (list N) :=
  match dump_limit rt bundle with
  | Some e => raise e
  | None =>
      let text := Encoder.dumps (repr_float rt) bundle ++ [10%N] in
      match Utf8.encode text with
      | Some data => ret data
      | None => raise (Exception (lit "UnicodeEncodeError") (codec_error rt text))
      end
  end.

(** What lines 17 and 18 make of the bytes of a file: the UTF-8 decoder,
    then [json.load]. (The newline translation of text mode is left out:
    it turns a carriage return into a line feed, and [json.load] takes
    both as blanks between values and refuses both inside a string.) *)
Definition decode_bundle (rt : Runtime) (data : list N) : Result json :=
  match Utf8.decode data with
  | Some text => json_load rt text
  | None => raise (Exception (lit "UnicodeDecodeError") (codec_error rt data))
  end.

(** [load_metadata(path)]: open the file and [json.load] it. *)
Definition load_metadata (rt : Runtime) (w : World) (p : path) : Result json :=
  text <- read_text w p ;;
  json_load rt text.

(** [detect_name(meta, session_path)]. *)
Fixpoint detect_name_keys (keys : list pystr) (meta : json) (session_path : path)
  : Result pystr :=
  match keys with
  | [] => ret (path_stem session_path)
  | key :: rest =>
      value <- py_get meta key ;;
      match value with
      | JStr s =>
          if nonempty (strip s) then ret (strip s)
          else detect_name_keys rest meta session_path
      | _ => detect_name_keys rest meta session_path
      end
  end.

Definition detect_name (meta : json) (session_path : path) : Result pystr :=
  detect_name_keys [lit "name"; lit "session_file"; lit "phone"; lit "username"]
                   meta session_path.

Definition missing_credentials : pystr :=
  lit "metadata must include app_id and app_hash (or pass overrides)".

(** The file [main] has written: where, and the text. *)
Record Written : Type := { written_to : path; written_text : pystr }.

Section Main.

Variable rt : Runtime.
Variable w : World.

(** The [bundle] dict literal of [main], its keys in source order. *)
Definition make_bundle (session_name pool_name : pystr) (id hash phone username : json)
    (token : pystr) (meta : json) : json :=
  JDict [ (lit "name", JStr session_name);
          (lit "pool", JStr pool_name);
          (lit "api_id", id);
          (lit "api_hash", hash);
          (lit "phone", phone);
          (lit "username", username);
          (lit "string_session", JStr token);
          (lit "metadata", meta) ].

(** The credentials after the overrides: [args.api_id] and
    [args.api_hash] when given, the metadata's [app_id] and [app_hash]
    otherwise. *)
Definition resolve_api_id (args : Args) (meta : json) : Result json :=
  match api_id args with
  | Some z => ret (JInt z)
  | None => py_get meta (lit "app_id")
  end.

Definition resolve_api_hash (args : Args) (meta : json) : Result json :=
  match api_hash args with
  | Some h => ret (JStr h)
  | None => py_get meta (lit "app_hash")
  end.

(** [args.name.strip() or detect_name(metadata, args.session)]. *)
Definition resolve_name (args : Args) (meta : json) : Result pystr :=
  if nonempty (strip (name args)) then ret (strip (name args))
  else detect_name meta (session args).

(** [args.pool.strip() or "default"]. *)
Definition resolve_pool (args : Args) : pystr :=
  if nonempty (strip (pool args)) then strip (pool args) else lit "default".

(** [if not api_id or not api_hash: raise SystemExit(...)]. *)
Definition check_credentials (id hash : json) : Result unit :=
  if negb (truthy id) || negb (truthy hash) then
    raise (SystemExit missing_credentials)
  else ret tt.

(** The body of [main] from the metadata on, up to the bundle. *)
Definition bundle_of (args : Args) (meta : json) : Result json :=
  id <- resolve_api_id args meta ;;
  hash <- resolve_api_hash args meta ;;
  _ <- check_credentials id hash ;;
  session_name <- resolve_name args meta ;;
  token <- string_session_save w (path_str (session args)) id hash ;;
  let pool_name := resolve_pool args in
  phone <- py_get meta (lit "phone") ;;
  username <- py_get meta (lit "username") ;;
  ret (make_bundle session_name pool_name id hash phone username token meta).

(** [main()], after [parse_args]. *)
Definition main (args : Args) : Result Written :=
  meta <- load_metadata rt w (metadata args) ;;
  bundle <- bundle_of args meta ;;
  let text := Encoder.dumps (repr_float rt) bundle ++ [10%N] in
  _ <- write_output w (output args) text ;;
  ret {| written_to := output args; written_text := text |}.

(** What the operating system sees of a run: the exit status, the lines
    on the standard error stream that tell the failure (the usage and the
    frames of a traceback are left out), and the file the run leaves at
    the [--output] path: [None] when it never opened it. *)
Record Process : Type := {
  exit_status : Z;
  stderr : list pystr;
  bundle_file : option Written
}.

(** The traceback the interpreter prints for an uncaught exception ends
    with the line [Class: message], or with [Class] alone when the
    message is empty; [cls] is the name as the traceback shows it. *)
Definition traceback_last_line (cls message : pystr) : pystr :=
  match message with
  | [] => cls
  | _ :: _ => cls ++ lit ": " ++ message
  end.

(** The text [main] hands to the output step, when it gets that far. *)
Definition text_to_write (args : Args) : option pystr :=
  match (meta <- load_metadata rt w (metadata args) ;; bundle_of args meta) with
  | inr bundle => Some (Encoder.dumps (repr_float rt) bundle ++ [10%N])
  | inl _ => None
  end.

(** The file a failed run leaves at the [--output] path: none when it
    failed before the output step, what the failed step left otherwise. *)
Definition left_by_failure (args : Args) : option Written :=
  match text_to_write args with
  | Some text =>
      match left_behind w (output args) text with
      | Some partial => Some {| written_to := output args; written_text := partial |}
      | None => None
      end
  | None => None
  end.

(** The [__main__] guard on a parsed command line: an [Exception] is
    printed as [error: ...] and raised again, so the interpreter prints
    its traceback and exits with status 1; [SystemExit] with a message is
    not an [Exception]: the interpreter prints the message and exits with
    status 1. *)
Definition run (c : CommandLine) : Process :=
  match main (parse_args c) with
  | inr written =>
      {| exit_status := 0; stderr := []; bundle_file := Some written |}
  | inl (Exception cls message) =>
      {| exit_status := 1;
         stderr := [lit "error: " ++ message; traceback_last_line cls message];
         bundle_file := left_by_failure (parse_args c) |}
  | inl (SystemExit message) =>
      {| exit_status := 1; stderr := [message];
         bundle_file := left_by_failure (parse_args c) |}
  end.

(** The script from [sys.argv] on. [parse_args] is called inside [main()]:
    when it exits, the [SystemExit] it raises passes the guard, which
    catches [Exception] only. *)
Definition script (inv : Invocation) : Process :=
  match inv with
  | ShowHelp => {| exit_status := 0; stderr := []; bundle_file := None |}
  | Refused error_line =>
      {| exit_status := 2; stderr := [error_line]; bundle_file := None |}
  | Parsed c => run c
  end.

End Main.

(** ** A sample run, used to evaluate the definitions *)

Module Sample.

Definition float_repr (f : pyfloat) : pystr := lit "0.0".

Definition meta : list (pystr * json) :=
  [ (lit "app_id", JInt 12345);
    (lit "app_hash", JStr (lit "abc"));
    (lit "phone", JStr (lit "+15550100"));
    (lit "twoFA", JNull);
    (lit "sdk", JStr (lit "Windows 10")) ].

Definition float_of_token (text : pystr) : pyfloat := FFinite false 0 0.

Definition token : pystr := lit "1BVtsOHwBu5".

Definition runtime : Runtime := {|
  repr_float := float_repr;
  parse_float := float_of_token;
  decode_error := fun _ => lit "Expecting value";
  load_limit := fun _ => None;
  dump_limit := fun _ => None;
  codec_error := fun _ => lit "surrogates not allowed"
|}.

(** A world whose metadata file holds the encoding of [m]. *)
Definition world (m : json) : World := {|
  read_text := fun _ => ret (Encoder.dumps float_repr m);
  string_session_save := fun _ _ _ => ret token;
  write_output := fun _ _ => ret tt;
  left_behind := fun _ _ => None
|}.

Definition cli : CommandLine := {|
  opt_metadata := Path (lit "in/777.json") (lit "777");
  opt_session := Path (lit "in/777.session") (lit "777");
  opt_output := Path (lit "out/acct1.json") (lit "acct1");
  opt_name := Some (lit "acct1");
  opt_pool := Some (lit "prod");
  opt_api_id := None;
  opt_api_hash := None
|}.

Definition with_name (n : option pystr) (c : CommandLine) : CommandLine :=
  {| opt_metadata := opt_metadata c; opt_session := opt_session c;
     opt_output := opt_output c; opt_name := n; opt_pool := opt_pool c;
     opt_api_id := opt_api_id c; opt_api_hash := opt_api_hash c |}.

Definition with_pool (p : option pystr) (c : CommandLine) : CommandLine :=
  {| opt_metadata := opt_metadata c; opt_session := opt_session c;
     opt_output := opt_output c; opt_name := opt_name c; opt_pool := p;
     opt_api_id := opt_api_id c; opt_api_hash := opt_api_hash c |}.


End Sample.

(** ** The vocabulary of the properties *)

(** A credential that is absent ([None]: the key is missing from the
    metadata, or holds [null], and no override is given). *)
Definition absent (v : json) : Prop := v = JNull.

(** A credential that is there and empty: the empty string, the empty
    list or dict, the number zero, [False]. *)
Definition empty (v : json) : Prop :=
  match v with
  | JNull => False
  | JBool b => b = false
  | JInt z => z = 0
  | JFloat (FFinite _ m _) => m = 0%N
  | JFloat _ => False
  | JStr s => s = []
  | JList items => items = []
  | JDict entries => entries = []
  end.

(** The credentials of a run whose metadata is the dict [entries]. *)
Definition credential_id (args : Args) (entries : list (pystr * json)) : json :=
  match api_id args with
  | Some z => JInt z
  | None => dict_get entries (lit "app_id")
  end.

Definition credential_hash (args : Args) (entries : list (pystr * json)) : json :=
  match api_hash args with
  | Some h => JStr h
  | None => dict_get entries (lit "app_hash")
  end.

(** [field bundle key]: the value of a top-level key of a bundle, when it
    has that key. *)
Definition field (bundle : json) (key : pystr) : option json :=
  match bundle with
  | JDict entries => dict_lookup entries key
  | _ => None
  end.

Definition keys_of (bundle : json) : list pystr :=
  match bundle with
  | JDict entries => dict_keys entries
  | _ => []
  end.

(** The run with arguments [args] emits [bundle]: [main] builds it from
    the loaded metadata and the write of its encoding succeeds. *)
Definition emits (rt : Runtime) (w : World) (args : Args)
    (bundle : json) : Prop :=
  (meta <- load_metadata rt w (metadata args) ;; bundle_of w args meta) = ret bundle
  /\ main rt w args =
       ret {| written_to := output args;
              written_text := Encoder.dumps (repr_float rt) bundle ++ [10%N] |}.

(** The name policy in the spec's words: the value of the first of the
    given metadata fields that is a non-empty string, the fallback when
    there is none. *)
Fixpoint first_nonempty_string (keys : list pystr) (entries : list (pystr * json))
    (fallback : pystr) : pystr :=
  match keys with
  | [] => fallback
  | key :: rest =>
      match dict_get entries key with
      | JStr (c :: s) => c :: s
      | _ => first_nonempty_string rest entries fallback
      end
  end.

Definition name_fields : list pystr :=
  [lit "name"; lit "session_file"; lit "phone"; lit "username"].

(** A metadata value [detect_name] accepts: a string with something left
    after [strip()]. *)
Definition usable_name (v : json) : option pystr :=
  match v with
  | JStr s => if nonempty (strip s) then Some (strip s) else None
  | _ => None
  end.

(** The text a failure puts on the standard error stream. *)
Definition reported (p : Process) : pystr := List.concat (stderr p).

(** [part] occurs in [text] as a contiguous piece. *)
Definition occurs (part text : pystr) : Prop :=
  exists before after, text = before ++ part ++ after.

(** One member of an encoded dict: ["key": value], the value encoded one
    level deeper than the dict. *)
Definition member (float_repr : pyfloat -> pystr) (level : nat) (key : pystr)
    (value : json) : pystr :=
  Encoder.encode_basestring key ++ lit ": "
  ++ Encoder.iterencode float_repr (S level) value.

Definition digit_chars (s : pystr) : Prop :=
  List.Forall (fun c => Decoder.is_digit c = true) s.

(** What may follow a number: not a digit, a point or an exponent
    letter. *)
Definition number_end (rest : pystr) : bool :=
  match rest with
  | [] => true
  | c :: _ => negb (Decoder.is_digit c || (c =? 46) || (c =? 101) || (c =? 69))%N
  end.

(** The calls [scan_once] makes to read a value back: one for the value,
    one more for each item of a list and each member of a dict. *)
Fixpoint need (v : json) : nat :=
  match v with
  | JList items =>
      S ((fix sum (l : list json) : nat :=
            match l with
            | [] => O
            | x :: r => S (need x + sum r)
            end) items)
  | JDict entries =>
      S ((fix sum (l : list (pystr * json)) : nat :=
            match l with
            | [] => O
            | (_, x) :: r => S (need x + sum r)
            end) entries)
  | _ => 1%nat
  end.

Definition need_items (items : list json) : nat :=
  List.fold_right (fun x n => S (need x + n)) O items.

Definition need_entries (entries : list (pystr * json)) : nat :=
  List.fold_right (fun kv n => S (need (snd kv) + n)) O entries.

Section ReadBackVocabulary.

Variable float_repr : pyfloat -> pystr.
Variable float_of_token : pystr -> pyfloat.

(** A finite float that the number scanner reads back from its
    [repr]. *)
Definition float_reads_back (f : pyfloat) : Prop :=
  match f with
  | FFinite _ _ _ =>
      forall rest, number_end rest = true ->
        Decoder.scan_number float_of_token (float_repr f ++ rest)
        = Some (JFloat f, rest)
  | _ => True
  end.

(** A value the scanner reads back: no dict has a key twice, and the
    number scanner reads every finite float back from its [repr]. *)
Fixpoint valid (v : json) : Prop :=
  match v with
  | JFloat f => float_reads_back f
  | JList items =>
      (fix all (l : list json) : Prop :=
         match l with
         | [] => True
         | x :: r => valid x /\ all r
         end) items
  | JDict entries =>
      List.NoDup (List.map fst entries)
      /\ (fix all (l : list (pystr * json)) : Prop :=
            match l with
            | [] => True
            | (_, x) :: r => valid x /\ all r
            end) entries
  | _ => True
  end.

(** The property proved of every value: [scan_once] reads its encoding
    back, at any nesting level, before any text a number may end at. *)
Definition reads_back (v : json) : Prop :=
  valid v ->
  forall level fuel rest,
    (need v <= fuel)%nat -> number_end rest = true ->
    Decoder.scan_once float_of_token fuel
      (Encoder.iterencode float_repr level v ++ rest)
    = Some (v, rest).

(** One member of an encoded dict, from after the opening quote of its
    key. *)
Definition member_tail (level : nat) (key : pystr) (value : json) (tail : pystr)
  : pystr :=
  List.flat_map Encoder.escape_char key
  ++ 34%N :: 58%N :: 32%N :: Encoder.iterencode float_repr (S level) value ++ tail.

End ReadBackVocabulary.

(** Induction on a JSON tree, with the hypothesis for every item of a
    list and every value of a dict. *)
Section JsonInduction.

Variable P : json -> Prop.
Hypothesis Hnull : P JNull.
Hypothesis Hbool : forall b, P (JBool b).
Hypothesis Hint : forall z, P (JInt z).
Hypothesis Hfloat : forall f, P (JFloat f).
Hypothesis Hstr : forall s, P (JStr s).
Hypothesis Hlist : forall items, List.Forall P items -> P (JList items).
Hypothesis Hdict :
  forall entries, List.Forall (fun kv => P (snd kv)) entries -> P (JDict entries).

Fixpoint json_nested_ind (v : json) : P v :=
  match v with
  | JNull => Hnull
  | JBool b => Hbool b
  | JInt z => Hint z
  | JFloat f => Hfloat f
  | JStr s => Hstr s
  | JList items =>
      Hlist items
        ((fix all (l : list json) : List.Forall P l :=
            match l with
            | [] => List.Forall_nil P
            | x :: r => List.Forall_cons x (json_nested_ind x) (all r)
            end) items)
  | JDict entries =>
      Hdict entries
        ((fix all (l : list (pystr * json))
            : List.Forall (fun kv => P (snd kv)) l :=
            match l with
            | [] => List.Forall_nil _
            | (k, x) :: r =>
                List.Forall_cons (k, x) (json_nested_ind x) (all r)
            end) entries)
  end.

End JsonInduction.

(** No dict of the value, at any depth, holds a key twice. *)
Fixpoint distinct_keys (v : json) : Prop :=
  match v with
  | JList items =>
      (fix all (l : list json) : Prop :=
         match l with
         | [] => True
         | x :: r => distinct_keys x /\ all r
         end) items
  | JDict entries =>
      List.NoDup (List.map fst entries)
      /\ (fix all (l : list (pystr * json)) : Prop :=
            match l with
            | [] => True
            | (_, x) :: r => distinct_keys x /\ all r
            end) entries
  | _ => True
  end.

(** Every finite float of the value, at any depth, reads back from its
    [repr]. *)
Fixpoint floats_read_back (float_repr : pyfloat -> pystr)
    (float_of_token : pystr -> pyfloat) (v : json) : Prop :=
  match v with
  | JFloat f => float_reads_back float_repr float_of_token f
  | JList items =>
      (fix all (l : list json) : Prop :=
         match l with
         | [] => True
         | x :: r => floats_read_back float_repr float_of_token x /\ all r
         end) items
  | JDict entries =>
      (fix all (l : list (pystr * json)) : Prop :=
         match l with
         | [] => True
         | (_, x) :: r => floats_read_back float_repr float_of_token x /\ all r
         end) entries
  | _ => True
  end.

(** A world whose metadata file holds [text]; the session step and the
    write succeed. *)
Definition file_world (text : pystr) : World := {|
  read_text := fun _ => ret text;
  string_session_save := fun _ _ _ => ret Sample.token;
  write_output := fun _ _ => ret tt;
  left_behind := fun _ _ => None
|}.

(** *** Values that can be written and read again *)

Definition ascii_digits (s : pystr) : Prop :=
  List.Forall (fun c => (48 <= c <= 57)%N) s.

(** The grammar of a JSON number that is not an integer: an optional
    minus sign; an integer part, [0] or a digit from 1 to 9 followed by
    digits; a fraction, a point and at least one digit; an exponent, [e]
    or [E], an optional sign and at least one digit; the fraction or the
    exponent is there. *)
Definition integer_part (t : pystr) : Prop :=
  t = [48%N]
  \/ exists d ds, t = d :: ds /\ (49 <= d <= 57)%N /\ ascii_digits ds.

Definition fraction_part (t : pystr) : Prop :=
  t = [] \/ exists d ds, t = 46%N :: d :: ds /\ ascii_digits (d :: ds).

Definition exponent_part (t : pystr) : Prop :=
  t = []
  \/ exists letter sign d ds,
       t = letter :: sign ++ d :: ds
       /\ (letter = 101%N \/ letter = 69%N)
       /\ (sign = [] \/ sign = [43%N] \/ sign = [45%N])
       /\ ascii_digits (d :: ds).

Definition float_token (t : pystr) : Prop :=
  exists sign int frac exp,
    t = sign ++ int ++ frac ++ exp
    /\ (sign = [] \/ sign = [45%N])
    /\ integer_part int /\ fraction_part frac /\ exponent_part exp
    /\ (frac <> [] \/ exp <> []).

(** What CPython promises of a finite float: its [repr] is such a
    number, and [float()] of it is the float. *)
Definition python_float (rt : Runtime) (f : pyfloat) : Prop :=
  match f with
  | FFinite _ _ _ =>
      float_token (repr_float rt f) /\ parse_float rt (repr_float rt f) = f
  | _ => True
  end.

(** Every float of a value satisfies [Pf] and every string of it, the
    keys of its dicts included, satisfies [Ps]. *)
Fixpoint json_all (Pf : pyfloat -> Prop) (Ps : pystr -> Prop) (v : json) : Prop :=
  match v with
  | JFloat f => Pf f
  | JStr s => Ps s
  | JList items =>
      (fix all (l : list json) : Prop :=
         match l with
         | [] => True
         | x :: r => json_all Pf Ps x /\ all r
         end) items
  | JDict entries =>
      (fix all (l : list (pystr * json)) : Prop :=
         match l with
         | [] => True
         | (k, x) :: r => (Ps k /\ json_all Pf Ps x) /\ all r
         end) entries
  | _ => True
  end.

Definition python_floats (rt : Runtime) (v : json) : Prop :=
  json_all (python_float rt) (fun _ => True) v.

(** A text of code points the UTF-8 encoder takes: no surrogate (and no
    number above U+10FFFF, which is no code point and which a [str]
    cannot hold). *)
Definition encodable (s : pystr) : bool :=
  List.forallb (fun c => negb (Utf8.is_surrogate c) && (c <? 1114112)%N) s.

Definition encodable_strings (v : json) : Prop :=
  json_all (fun _ => True) (fun s => encodable s = true) v.

(** A text that does not go on with a digit. *)
Definition digits_end (s : pystr) : Prop :=
  match s with
  | [] => True
  | c :: _ => Decoder.is_digit c = false
  end.

(** *** The text of a string in the file *)


(** The characters of [s] between two double quotes. *)
Definition quoted (s : pystr) : pystr := 34%N :: s ++ [34%N].


(** The text of a metadata file with a surrogate, written as the JSON
    escape of its code point. *)
Definition surrogate_metadata_text : pystr :=
  lit "{" ++ quoted (lit "app_id") ++ lit ": 12345, "
  ++ quoted (lit "app_hash") ++ lit ": " ++ quoted (lit "abc") ++ lit ", "
  ++ quoted (lit "note") ++ lit ": " ++ quoted (lit "\ud800") ++ lit "}".

(** An output step that goes through the UTF-8 codec: it succeeds only on
    a text the encoder takes. *)
Definition utf8_output (w : World) : Prop :=
  forall p text, write_output w p text = ret tt -> encodable text = true.

(** A world whose metadata file holds [text] and whose output step fails
    on the codec only: it refuses a text with a surrogate after the file
    is opened, and leaves in it what [json.dump] had written before,
    [flushed t]. *)
Definition codec_world (rt : Runtime) (text : pystr) (flushed : pystr -> pystr)
  : World := {|
  read_text := fun _ => ret text;
  string_session_save := fun _ _ _ => ret Sample.token;
  write_output := fun _ t =>
    if encodable t then ret tt
    else raise (Exception (lit "UnicodeEncodeError") (codec_error rt t));
  left_behind := fun _ t => Some (flushed t)
|}.

(** ** Tactics *)

(** Arithmetic with division and remainder by a constant. *)
Ltac euclid := zify; Z.to_euclidean_division_equations; lia.

Ltac settle_comparisons :=
  repeat match goal with
    | |- context [(?a <? ?b)%N] =>
        first [ replace (a <? b)%N with true by (symmetry; apply N.ltb_lt; euclid)
              | replace (a <? b)%N with false by (symmetry; apply N.ltb_ge; euclid) ]
    | |- context [(?a <=? ?b)%N] =>
        first [ replace (a <=? b)%N with true by (symmetry; apply N.leb_le; euclid)
              | replace (a <=? b)%N with false by (symmetry; apply N.leb_gt; euclid) ]
    | |- context [(?a =? ?b)%N] =>
        first [ replace (a =? b)%N with true by (symmetry; apply N.eqb_eq; euclid)
              | replace (a =? b)%N with false by (symmetry; apply N.eqb_neq; euclid) ]
    end.

(** ** Facts on strings *)

Lemma pystr_eqb_eq a b : PyStr.eqb a b = true <-> a = b.
Proof.
  unfold PyStr.eqb. destruct (list_eq_dec N.eq_dec a b); split; congruence.
Qed.

Lemma pystr_eqb_refl a : PyStr.eqb a a = true.
Proof. now apply pystr_eqb_eq. Qed.

Lemma pystr_eqb_neq a b : PyStr.eqb a b = false <-> a <> b.
Proof.
  unfold PyStr.eqb. destruct (list_eq_dec N.eq_dec a b); split; congruence.
Qed.

(** ** Properties of a run *)

Lemma json_load_inv (rt : Runtime) (text : pystr) (value : json) :
  json_load rt text = ret value ->
  load_limit rt text = None /\ Decoder.loads (parse_float rt) text = Some value.
Proof.
  unfold json_load. destruct (load_limit rt text); [ discriminate | ].
  destruct (Decoder.loads (parse_float rt) text); [ | discriminate ].
  intros H. now injection H as <-.
Qed.

Lemma json_load_intro (rt : Runtime) (text : pystr) (value : json) :
  load_limit rt text = None ->
  Decoder.loads (parse_float rt) text = Some value ->
  json_load rt text = ret value.
Proof. unfold json_load. now intros -> ->. Qed.

Lemma truthy_false_iff (v : json) : truthy v = false <-> absent v \/ empty v.
Proof.
  unfold absent.
  destruct v as [ | b | z | f | s | items | entries ]; simpl.
  - tauto.
  - split; [ now right | now intros [ H | H ] ].
  - rewrite negb_false_iff, Z.eqb_eq.
    split; [ now right | now intros [ H | H ] ].
  - destruct f as [ | neg | neg m e ]; simpl.
    + split; [ discriminate | now intros [ H | [] ] ].
    + split; [ discriminate | now intros [ H | [] ] ].
    + rewrite negb_false_iff, N.eqb_eq.
      split; [ now right | now intros [ H | H ] ].
  - destruct s; simpl; split; try discriminate; auto.
    now intros [ H | H ].
  - destruct items; simpl; split; try discriminate; auto.
    now intros [ H | H ].
  - destruct entries; simpl; split; try discriminate; auto.
    now intros [ H | H ].
Qed.

Lemma truthy_true_iff (v : json) : truthy v = true <-> ~ absent v /\ ~ empty v.
Proof.
  pose proof (truthy_false_iff v) as H.
  destruct (truthy v); split; intros; try tauto; try discriminate.
  split; intros G; assert (true = false) by tauto; discriminate.
Qed.

Section RunFacts.

Variable rt : Runtime.
Variable w : World.

Lemma resolve_api_id_dict args entries :
  resolve_api_id args (JDict entries) = ret (credential_id args entries).
Proof. unfold resolve_api_id, credential_id. now destruct (api_id args). Qed.

Lemma resolve_api_hash_dict args entries :
  resolve_api_hash args (JDict entries) = ret (credential_hash args entries).
Proof. unfold resolve_api_hash, credential_hash. now destruct (api_hash args). Qed.

Lemma check_credentials_fails id hash :
  truthy id = false \/ truthy hash = false ->
  check_credentials id hash = raise (SystemExit missing_credentials).
Proof.
  unfold check_credentials. intros [ H | H ]; rewrite H; simpl.
  - reflexivity.
  - now rewrite orb_true_r.
Qed.

Lemma check_credentials_passes id hash :
  truthy id = true -> truthy hash = true -> check_credentials id hash = ret tt.
Proof. unfold check_credentials. now intros -> ->. Qed.

Lemma check_credentials_inv id hash :
  check_credentials id hash = ret tt -> truthy id = true /\ truthy hash = true.
Proof.
  unfold check_credentials.
  destruct (truthy id), (truthy hash); simpl; intros H; try discriminate; auto.
Qed.

(** The bundle of a run over dict metadata, step by step. *)
Lemma bundle_of_dict args entries :
  bundle_of w args (JDict entries) =
    (_ <- check_credentials (credential_id args entries)
                            (credential_hash args entries) ;;
     session_name <- resolve_name args (JDict entries) ;;
     token <- string_session_save w (path_str (session args))
                (credential_id args entries) (credential_hash args entries) ;;
     ret (make_bundle session_name (resolve_pool args)
            (credential_id args entries) (credential_hash args entries)
            (dict_get entries (lit "phone")) (dict_get entries (lit "username"))
            token (JDict entries))).
Proof.
  unfold bundle_of.
  now rewrite resolve_api_id_dict, resolve_api_hash_dict.
Qed.

(** Metadata that is not a dict never yields a bundle: the last
    [metadata.get] of [main] raises at the latest. *)
Lemma bundle_of_not_dict args meta bundle :
  bundle_of w args meta = ret bundle -> exists entries, meta = JDict entries.
Proof.
  destruct meta as [ | b | z | f | s | items | entries ];
    try (now exists entries);
    unfold bundle_of; intros H; exfalso;
    repeat match type of H with
           | bind ?m _ = _ => destruct m; simpl in H; try discriminate
           end.
Qed.

(** Every successful run, taken apart. *)
Lemma main_written args written :
  main rt w args = ret written ->
  exists entries session_name token,
    load_metadata rt w (metadata args) = ret (JDict entries)
    /\ truthy (credential_id args entries) = true
    /\ truthy (credential_hash args entries) = true
    /\ resolve_name args (JDict entries) = ret session_name
    /\ string_session_save w (path_str (session args))
         (credential_id args entries) (credential_hash args entries) = ret token
    /\ written_to written = output args
    /\ written_text written =
         Encoder.dumps (repr_float rt)
           (make_bundle session_name (resolve_pool args)
              (credential_id args entries) (credential_hash args entries)
              (dict_get entries (lit "phone")) (dict_get entries (lit "username"))
              token (JDict entries)) ++ [10%N].
Proof.
  unfold main. intros H.
  destruct (load_metadata rt w (metadata args)) as [ e | meta ] eqn:Hload;
    simpl in H; [ discriminate | ].
  destruct (bundle_of w args meta) as [ e | bundle ] eqn:Hbundle;
    simpl in H; [ discriminate | ].
  destruct (bundle_of_not_dict _ _ _ Hbundle) as [ entries -> ].
  rewrite bundle_of_dict in Hbundle.
  destruct (check_credentials (credential_id args entries)
              (credential_hash args entries)) as [ e | [] ] eqn:Hcheck;
    simpl in Hbundle; [ discriminate | ].
  apply check_credentials_inv in Hcheck. destruct Hcheck as [ Hid Hhash ].
  destruct (resolve_name args (JDict entries)) as [ e | session_name ] eqn:Hname;
    simpl in Hbundle; [ discriminate | ].
  destruct (string_session_save w (path_str (session args))
              (credential_id args entries) (credential_hash args entries))
    as [ e | token ] eqn:Htoken; simpl in Hbundle; [ discriminate | ].
  injection Hbundle as <-.
  destruct (write_output w (output args) _) as [ e | [] ]; simpl in H;
    [ discriminate | ].
  injection H as <-.
  exists entries, session_name, token. simpl. auto 10.
Qed.

End RunFacts.

(** ** The emitted bundle *)

Lemma dict_lookup_get entries key :
  dict_get entries key =
    match dict_lookup entries key with Some v => v | None => JNull end.
Proof.
  induction entries as [ | [ k v ] rest IH ]; simpl; [ reflexivity | ].
  now destruct (PyStr.eqb k key).
Qed.

Lemma detect_name_keys_dict keys entries p :
  exists n, detect_name_keys keys (JDict entries) p = ret n.
Proof.
  induction keys as [ | key rest IH ]; simpl.
  - now exists (path_stem p).
  - destruct (dict_get entries key); try exact IH.
    destruct (nonempty (strip s)); [ now eexists | exact IH ].
Qed.

Lemma resolve_name_dict args entries :
  exists n, resolve_name args (JDict entries) = ret n.
Proof.
  unfold resolve_name. destruct (nonempty (strip (name args))).
  - now eexists.
  - apply detect_name_keys_dict.
Qed.

Section Emitted.

Variable rt : Runtime.
Variable w : World.

(** A successful [main] has emitted a bundle, and its file holds the
    bundle's encoding. *)
Lemma main_emits args written :
  main rt w args = ret written ->
  exists bundle,
    emits rt w args bundle
    /\ written_to written = output args
    /\ written_text written = Encoder.dumps (repr_float rt) bundle ++ [10%N].
Proof.
  intros H. unfold emits. revert H. unfold main.
  destruct (load_metadata rt w (metadata args)) as [ e | meta ]; simpl;
    [ discriminate | ].
  destruct (bundle_of w args meta) as [ e | bundle ]; simpl; [ discriminate | ].
  destruct (write_output w (output args) _) as [ e | [] ]; simpl;
    [ discriminate | ].
  intros H. injection H as <-. exists bundle. simpl. auto.
Qed.

(** An emitted bundle, taken apart. *)
Lemma emits_inv args bundle :
  emits rt w args bundle ->
  exists entries session_name token,
    load_metadata rt w (metadata args) = ret (JDict entries)
    /\ truthy (credential_id args entries) = true
    /\ truthy (credential_hash args entries) = true
    /\ resolve_name args (JDict entries) = ret session_name
    /\ string_session_save w (path_str (session args))
         (credential_id args entries) (credential_hash args entries) = ret token
    /\ bundle =
         make_bundle session_name (resolve_pool args)
           (credential_id args entries) (credential_hash args entries)
           (dict_get entries (lit "phone")) (dict_get entries (lit "username"))
           token (JDict entries).
Proof.
  intros [ Hbuilt Hmain ].
  destruct (main_written _ _ _ _ Hmain)
    as (entries & session_name & token & Hload & Hid & Hhash & Hname & Htoken & _ & _).
  exists entries, session_name, token. repeat (split; [ assumption | ]).
  rewrite Hload in Hbuilt. simpl in Hbuilt.
  rewrite bundle_of_dict in Hbuilt.
  rewrite (check_credentials_passes _ _ Hid Hhash), Hname, Htoken in Hbuilt.
  simpl in Hbuilt. now injection Hbuilt as <-.
Qed.

(** When every step of the run succeeds, the bundle is emitted. *)
Lemma emits_intro args entries session_name token :
  load_metadata rt w (metadata args) = ret (JDict entries) ->
  truthy (credential_id args entries) = true ->
  truthy (credential_hash args entries) = true ->
  resolve_name args (JDict entries) = ret session_name ->
  string_session_save w (path_str (session args))
    (credential_id args entries) (credential_hash args entries) = ret token ->
  write_output w (output args)
    (Encoder.dumps (repr_float rt)
       (make_bundle session_name (resolve_pool args)
          (credential_id args entries) (credential_hash args entries)
          (dict_get entries (lit "phone")) (dict_get entries (lit "username"))
          token (JDict entries)) ++ [10%N]) = ret tt ->
  emits rt w args
    (make_bundle session_name (resolve_pool args)
       (credential_id args entries) (credential_hash args entries)
       (dict_get entries (lit "phone")) (dict_get entries (lit "username"))
       token (JDict entries)).
Proof.
  intros Hload Hid Hhash Hname Htoken Hwrite.
  assert (Hbuilt : (meta <- load_metadata rt w (metadata args) ;; bundle_of w args meta)
                   = ret (make_bundle session_name (resolve_pool args)
                            (credential_id args entries) (credential_hash args entries)
                            (dict_get entries (lit "phone"))
                            (dict_get entries (lit "username")) token (JDict entries))).
  { rewrite Hload. simpl. rewrite bundle_of_dict.
    rewrite (check_credentials_passes _ _ Hid Hhash), Hname, Htoken.
    reflexivity. }
  split; [ exact Hbuilt | ].
  unfold main. rewrite Hload in *. simpl in *. rewrite Hbuilt. simpl.
  now rewrite Hwrite.
Qed.

End Emitted.

(** ** Validation of the credentials *)

Section Validation.

Variable rt : Runtime.
Variable w : World.

(** A run that fails before the output step leaves the output path as it
    was. *)
Lemma left_by_failure_early args e :
  (meta <- load_metadata rt w (metadata args) ;; bundle_of w args meta) = raise e ->
  left_by_failure rt w args = None.
Proof.
  intros H. unfold left_by_failure, text_to_write.
  unfold raise in H. now rewrite H.
Qed.

(** What the guard makes of a failed [main]. *)
Lemma run_failure c e :
  main rt w (parse_args c) = raise e ->
  run rt w c =
    match e with
    | SystemExit message =>
        {| exit_status := 1; stderr := [message];
           bundle_file := left_by_failure rt w (parse_args c) |}
    | Exception cls message =>
        {| exit_status := 1;
           stderr := [lit "error: " ++ message; traceback_last_line cls message];
           bundle_file := left_by_failure rt w (parse_args c) |}
    end.
Proof. unfold run, raise. intros ->. now destruct e. Qed.

(** A credential that fails the check stops [main] before the bundle. *)
Lemma built_fails_validation args entries :
  load_metadata rt w (metadata args) = ret (JDict entries) ->
  truthy (credential_id args entries) = false
  \/ truthy (credential_hash args entries) = false ->
  (meta <- load_metadata rt w (metadata args) ;; bundle_of w args meta)
  = raise (SystemExit missing_credentials).
Proof.
  intros Hload H. rewrite Hload. cbn [bind ret].
  rewrite bundle_of_dict, check_credentials_fails by exact H. reflexivity.
Qed.

(** With both credentials accepted, [main] is the steps after the check. *)
Lemma main_after_validation args entries session_name :
  load_metadata rt w (metadata args) = ret (JDict entries) ->
  truthy (credential_id args entries) = true ->
  truthy (credential_hash args entries) = true ->
  resolve_name args (JDict entries) = ret session_name ->
  main rt w args =
    (token <- string_session_save w (path_str (session args))
                (credential_id args entries) (credential_hash args entries) ;;
     _ <- write_output w (output args)
            (Encoder.dumps (repr_float rt)
               (make_bundle session_name (resolve_pool args)
                  (credential_id args entries) (credential_hash args entries)
                  (dict_get entries (lit "phone")) (dict_get entries (lit "username"))
                  token (JDict entries)) ++ [10%N]) ;;
     ret {| written_to := output args;
            written_text :=
              Encoder.dumps (repr_float rt)
                (make_bundle session_name (resolve_pool args)
                   (credential_id args entries) (credential_hash args entries)
                   (dict_get entries (lit "phone")) (dict_get entries (lit "username"))
                   token (JDict entries)) ++ [10%N] |}).
Proof.
  intros Hload Hid Hhash Hname. unfold main. rewrite Hload. cbn [bind ret].
  rewrite bundle_of_dict, (check_credentials_passes _ _ Hid Hhash), Hname.
  cbn [bind ret].
  now destruct (string_session_save w (path_str (session args))
                  (credential_id args entries) (credential_hash args entries)).
Qed.

End Validation.

(** C1, as the claim states it for every metadata input, fails: a metadata
    file that holds a JSON list and a command line with no override leave
    both credentials unsupplied, yet the run does not fail with the
    validation error: the first [metadata.get] raises [AttributeError]. *)
Lemma metadata_list_is_no_validation_error :
  load_metadata Sample.runtime (Sample.world (JList []))
    (metadata (parse_args Sample.cli)) = ret (JList [])
  /\ opt_api_id Sample.cli = None
  /\ opt_api_hash Sample.cli = None
  /\ main Sample.runtime (Sample.world (JList [])) (parse_args Sample.cli)
     = raise (Exception (lit "AttributeError")
                (lit "'list' object has no attribute 'get'"))
  /\ main Sample.runtime (Sample.world (JList [])) (parse_args Sample.cli)
     <> raise (SystemExit missing_credentials)
  /\ stderr (run Sample.runtime (Sample.world (JList [])) Sample.cli)
     = [ lit "error: 'list' object has no attribute 'get'";
         lit "AttributeError: 'list' object has no attribute 'get'" ].
Proof. repeat split. discriminate. Qed.

(** C1, amended. For every metadata file that holds a JSON object and
    every pair of overrides: when, after the overrides are applied,
    [api_id] or [api_hash] is absent or empty, [main] fails with the
    validation error ([SystemExit] with the missing-credentials message),
    the run prints that message, exits with status 1, never opens the
    output file and emits no bundle; when both are present and non-empty,
    validation passes: [main] goes on to the session step with these
    credentials and to the output step with the bundle that holds them,
    and its outcome is theirs. A credential with no override that the
    metadata does not hold is absent: no default takes its place. *)
Theorem credentials_validated (rt : Runtime) (w : World)
    (c : CommandLine) (entries : list (pystr * json)) :
  load_metadata rt w (metadata (parse_args c)) = ret (JDict entries) ->
  let args := parse_args c in
  let id := credential_id args entries in
  let hash := credential_hash args entries in
  ((absent id \/ empty id) \/ (absent hash \/ empty hash) ->
     main rt w args = raise (SystemExit missing_credentials)
     /\ run rt w c =
          {| exit_status := 1; stderr := [missing_credentials]; bundle_file := None |}
     /\ forall bundle, ~ emits rt w args bundle)
  /\ ((~ absent id /\ ~ empty id) /\ (~ absent hash /\ ~ empty hash) ->
        exists session_name,
          resolve_name args (JDict entries) = ret session_name
          /\ main rt w args =
               (token <- string_session_save w (path_str (session args)) id hash ;;
                _ <- write_output w (output args)
                       (Encoder.dumps (repr_float rt)
                          (make_bundle session_name (resolve_pool args) id hash
                             (dict_get entries (lit "phone"))
                             (dict_get entries (lit "username"))
                             token (JDict entries)) ++ [10%N]) ;;
                ret {| written_to := output args;
                       written_text :=
                         Encoder.dumps (repr_float rt)
                           (make_bundle session_name (resolve_pool args) id hash
                              (dict_get entries (lit "phone"))
                              (dict_get entries (lit "username"))
                              token (JDict entries)) ++ [10%N] |})
          /\ forall token,
               string_session_save w (path_str (session args)) id hash = ret token ->
               write_output w (output args)
                 (Encoder.dumps (repr_float rt)
                    (make_bundle session_name (resolve_pool args) id hash
                       (dict_get entries (lit "phone"))
                       (dict_get entries (lit "username"))
                       token (JDict entries)) ++ [10%N]) = ret tt ->
               emits rt w args
                 (make_bundle session_name (resolve_pool args) id hash
                    (dict_get entries (lit "phone"))
                    (dict_get entries (lit "username"))
                    token (JDict entries)))
  /\ (opt_api_id c = None -> dict_lookup entries (lit "app_id") = None -> absent id)
  /\ (opt_api_hash c = None -> dict_lookup entries (lit "app_hash") = None ->
        absent hash).
Proof.
  intros Hload args id hash. split; [ | split; [ | split ] ].
  - intros H.
    assert (Hfalsy : truthy id = false \/ truthy hash = false)
      by (rewrite !truthy_false_iff; exact H).
    pose proof (built_fails_validation rt w args entries Hload Hfalsy) as Hbuilt.
    assert (Hmain : main rt w args = raise (SystemExit missing_credentials)).
    { unfold main. fold args in Hload. rewrite Hload. cbn [bind ret].
      rewrite bundle_of_dict, check_credentials_fails by exact Hfalsy.
      reflexivity. }
    split; [ exact Hmain | split ].
    + rewrite (run_failure rt w c _ Hmain).
      fold args. now rewrite (left_by_failure_early rt w args _ Hbuilt).
    + intros bundle [ Hemit _ ]. rewrite Hbuilt in Hemit. discriminate.
  - intros [ Hid Hhash ].
    apply truthy_true_iff in Hid. apply truthy_true_iff in Hhash.
    destruct (resolve_name_dict args entries) as [ session_name Hname ].
    exists session_name. split; [ exact Hname | split ].
    + now apply main_after_validation.
    + intros token Htoken Hwrite. now apply emits_intro.
  - intros Hopt Hmissing. subst id. unfold credential_id, absent.
    simpl. rewrite Hopt, dict_lookup_get, Hmissing. reflexivity.
  - intros Hopt Hmissing. subst hash. unfold credential_hash, absent.
    simpl. rewrite Hopt, dict_lookup_get, Hmissing. reflexivity.
Qed.

Lemma credentials_validated_witness :
  main Sample.runtime (Sample.world (JDict [(lit "app_id", JInt 12345)]))
       (parse_args Sample.cli)
  = raise (SystemExit missing_credentials).
Proof.
  apply (credentials_validated Sample.runtime
           (Sample.world (JDict [(lit "app_id", JInt 12345)])) Sample.cli
           [(lit "app_id", JInt 12345)] eq_refl).
  right. left. reflexivity.
Defined.

(** ** The fields of the bundle *)

(** C2, as the claim states it, fails: the bundle of the sample run has no
    field named [authorization_token]. *)
Lemma no_authorization_token_field :
  exists bundle,
    emits Sample.runtime (Sample.world (JDict Sample.meta))
          (parse_args Sample.cli) bundle
    /\ field bundle (lit "authorization_token") = None.
Proof.
  eexists. split.
  - apply (emits_intro Sample.runtime (Sample.world (JDict Sample.meta))
             (parse_args Sample.cli) Sample.meta (lit "acct1") Sample.token);
      reflexivity.
  - reflexivity.
Qed.

(** C2, amended. Every bundle the program emits has exactly the keys
    [name], [pool], [api_id], [api_hash], [phone], [username],
    [string_session], [metadata], in this order; [string_session] holds
    the session token the Telethon client saved for the resolved
    credentials, next to the name, the pool and the credentials; there is
    no [authorization_token] key. *)
Theorem bundle_fields (rt : Runtime) (w : World) (args : Args)
    (bundle : json) :
  emits rt w args bundle ->
  keys_of bundle =
    [lit "name"; lit "pool"; lit "api_id"; lit "api_hash"; lit "phone";
     lit "username"; lit "string_session"; lit "metadata"]
  /\ field bundle (lit "authorization_token") = None
  /\ exists entries session_name token,
       load_metadata rt w (metadata args) = ret (JDict entries)
       /\ resolve_name args (JDict entries) = ret session_name
       /\ string_session_save w (path_str (session args))
            (credential_id args entries) (credential_hash args entries) = ret token
       /\ field bundle (lit "string_session") = Some (JStr token)
       /\ field bundle (lit "name") = Some (JStr session_name)
       /\ field bundle (lit "pool") = Some (JStr (resolve_pool args))
       /\ field bundle (lit "api_id") = Some (credential_id args entries)
       /\ field bundle (lit "api_hash") = Some (credential_hash args entries).
Proof.
  intros H.
  destruct (emits_inv _ _ _ _ H)
    as (entries & session_name & token & Hload & _ & _ & Hname & Htoken & ->).
  split; [ reflexivity | ]. split; [ reflexivity | ].
  exists entries, session_name, token.
  repeat (split; [ assumption || reflexivity | ]). reflexivity.
Qed.

Lemma bundle_fields_witness :
  field (make_bundle (lit "acct1") (lit "prod") (JInt 12345) (JStr (lit "abc"))
           (JStr (lit "+15550100")) JNull Sample.token (JDict Sample.meta))
        (lit "authorization_token") = None.
Proof.
  apply (bundle_fields Sample.runtime (Sample.world (JDict Sample.meta))
           (parse_args Sample.cli)).
  apply (emits_intro Sample.runtime (Sample.world (JDict Sample.meta))
           (parse_args Sample.cli) Sample.meta (lit "acct1") Sample.token);
    reflexivity.
Defined.

(** ** The pool tag *)

(** C5, as the claim states it, fails: a supplied tag with surrounding
    whitespace is not the bundle's [pool]; the bundle holds it stripped. *)
Lemma pool_tag_is_stripped :
  exists bundle,
    emits Sample.runtime (Sample.world (JDict Sample.meta))
          (parse_args (Sample.with_pool (Some (lit " prod ")) Sample.cli)) bundle
    /\ field bundle (lit "pool") = Some (JStr (lit "prod"))
    /\ field bundle (lit "pool") <> Some (JStr (lit " prod ")).
Proof.
  eexists. split; [ | split ].
  - apply (emits_intro Sample.runtime (Sample.world (JDict Sample.meta))
             (parse_args (Sample.with_pool (Some (lit " prod ")) Sample.cli))
             Sample.meta (lit "acct1") Sample.token);
      reflexivity.
  - reflexivity.
  - discriminate.
Qed.

(** C5, amended. When no pool tag is supplied, or the supplied tag is
    empty or only whitespace, the bundle's [pool] is ["default"];
    otherwise it is the supplied tag with the whitespace around it
    stripped. *)
Theorem pool_field (rt : Runtime) (w : World) (c : CommandLine)
    (bundle : json) :
  emits rt w (parse_args c) bundle ->
  field bundle (lit "pool") =
    Some (JStr match opt_pool c with
               | None => lit "default"
               | Some tag =>
                   match strip tag with
                   | [] => lit "default"
                   | _ :: _ => strip tag
                   end
               end).
Proof.
  intros H.
  destruct (emits_inv _ _ _ _ H)
    as (entries & session_name & token & _ & _ & _ & _ & _ & ->).
  simpl. unfold resolve_pool. simpl.
  destruct (opt_pool c) as [ tag | ]; [ | reflexivity ].
  now destruct (strip tag).
Qed.

Lemma pool_field_witness :
  field (make_bundle (lit "acct1") (lit "default") (JInt 12345) (JStr (lit "abc"))
           (JStr (lit "+15550100")) JNull Sample.token (JDict Sample.meta))
        (lit "pool") = Some (JStr (lit "default")).
Proof.
  apply (pool_field Sample.runtime (Sample.world (JDict Sample.meta))
           (Sample.with_pool (Some (lit "   ")) Sample.cli)).
  apply (emits_intro Sample.runtime (Sample.world (JDict Sample.meta))
           (parse_args (Sample.with_pool (Some (lit "   ")) Sample.cli))
           Sample.meta (lit "acct1") Sample.token);
    reflexivity.
Defined.

(** ** The account name *)

(** C3, as the claim states it, fails: a [name] of blanks is a non-empty
    string, and the resolved name is the next field's value; a value with
    blanks around it is resolved to its stripped text. *)
Lemma blank_name_is_skipped :
  let entries := [(lit "name", JStr (lit "  ")); (lit "phone", JStr (lit " 123 "))] in
  let args := parse_args (Sample.with_name None Sample.cli) in
  first_nonempty_string name_fields entries (path_stem (session args)) = lit "  "
  /\ resolve_name args (JDict entries) = ret (lit "123")
  /\ resolve_name args (JDict entries)
     <> ret (first_nonempty_string name_fields entries (path_stem (session args))).
Proof. repeat split. discriminate. Qed.

Lemma detect_name_keys_first keys entries p :
  (exists before key after,
      keys = before ++ key :: after
      /\ (forall k, In k before -> usable_name (dict_get entries k) = None)
      /\ exists n, usable_name (dict_get entries key) = Some n
                   /\ detect_name_keys keys (JDict entries) p = ret n)
  \/ ((forall k, In k keys -> usable_name (dict_get entries k) = None)
      /\ detect_name_keys keys (JDict entries) p = ret (path_stem p)).
Proof.
  induction keys as [ | key rest IH ].
  - right. split; [ intros k [] | reflexivity ].
  - destruct (usable_name (dict_get entries key)) as [ n | ] eqn:Hkey.
    + left. exists [], key, rest. split; [ reflexivity | ].
      split; [ intros k [] | ]. exists n. split; [ exact Hkey | ].
      simpl. unfold usable_name in Hkey.
      destruct (dict_get entries key); try discriminate.
      destruct (nonempty (strip s)); [ | discriminate ].
      now injection Hkey as <-.
    + assert (Hstep : detect_name_keys (key :: rest) (JDict entries) p
                      = detect_name_keys rest (JDict entries) p).
      { simpl. unfold usable_name in Hkey.
        destruct (dict_get entries key); try reflexivity.
        destruct (nonempty (strip s)); [ discriminate | reflexivity ]. }
      rewrite Hstep.
      destruct IH as [ (before & k & after & -> & Hbefore & n & Hk & Hn)
                     | [ Hnone Hstem ] ].
      * left. exists (key :: before), k, after. split; [ reflexivity | ].
        split; [ | now exists n ].
        intros k' [ <- | Hin ]; [ exact Hkey | now apply Hbefore ].
      * right. split; [ | exact Hstem ].
        intros k' [ <- | Hin ]; [ exact Hkey | now apply Hnone ].
Qed.

(** C3, amended. When no explicit name is supplied (none, or one that is
    empty or only whitespace), the resolved name is taken from the first
    of the metadata fields [name], [session_file], [phone], [username], in
    that order, whose value is a string that is not empty once the
    whitespace around it is stripped, and it is that stripped value; when
    no field qualifies it is the fallback, the stem of the session
    path. *)
Theorem name_resolution (c : CommandLine) (entries : list (pystr * json)) :
  match opt_name c with None => True | Some n => strip n = [] end ->
  let args := parse_args c in
  (exists before key after,
      name_fields = before ++ key :: after
      /\ (forall k, In k before -> usable_name (dict_get entries k) = None)
      /\ exists s, dict_get entries key = JStr s
                   /\ strip s <> []
                   /\ resolve_name args (JDict entries) = ret (strip s))
  \/ ((forall k, In k name_fields -> usable_name (dict_get entries k) = None)
      /\ resolve_name args (JDict entries) = ret (path_stem (opt_session c))).
Proof.
  intros Hname args.
  assert (Hdetect : resolve_name args (JDict entries)
                    = detect_name (JDict entries) (opt_session c)).
  { unfold resolve_name, args. simpl.
    destruct (opt_name c) as [ n | ]; [ now rewrite Hname | reflexivity ]. }
  rewrite Hdetect. unfold detect_name. fold name_fields.
  destruct (detect_name_keys_first name_fields entries (opt_session c))
    as [ (before & key & after & Hsplit & Hbefore & n & Hkey & Hn) | Hnone ].
  - left. exists before, key, after. split; [ exact Hsplit | ].
    split; [ exact Hbefore | ].
    unfold usable_name in Hkey.
    destruct (dict_get entries key) as [ | | | | s | | ]; try discriminate.
    exists s. split; [ reflexivity | ].
    destruct (strip s) eqn:Hs; simpl in Hkey; [ discriminate | ].
    injection Hkey as <-. split; [ discriminate | exact Hn ].
  - right. exact Hnone.
Qed.

Lemma name_resolution_witness :
  exists n,
    resolve_name (parse_args (Sample.with_name (Some (lit "  ")) Sample.cli))
                 (JDict [(lit "name", JInt 7); (lit "username", JStr (lit " bob "))])
    = ret n.
Proof.
  destruct (name_resolution (Sample.with_name (Some (lit "  ")) Sample.cli)
              [(lit "name", JInt 7); (lit "username", JStr (lit " bob "))] eq_refl)
    as [ (before & key & after & Hsplit & Hbefore & s & Hkey & Hs & Hn)
       | [ Hnone Hstem ] ].
  - exists (strip s). exact Hn.
  - exists (path_stem (opt_session Sample.cli)). exact Hstem.
Defined.

(** ** Overrides *)




(** ** Failures *)

(** C8, as the claim states it, fails: the validation failure is
    reported, but its text names neither the account nor the pool. *)
Lemma validation_error_has_no_context :
  let p := script Sample.runtime (Sample.world (JDict [])) (Parsed Sample.cli) in
  opt_name Sample.cli = Some (lit "acct1")
  /\ opt_pool Sample.cli = Some (lit "prod")
  /\ exit_status p <> 0
  /\ stderr p = [missing_credentials]
  /\ contains (lit "acct1") (reported p) = false
  /\ contains (lit "prod") (reported p) = false.
Proof. repeat split. discriminate. Qed.

(** C8, amended. Every run that fails is reported and ends
    unsuccessfully. A command line [argparse] refuses ends with a status
    other than 0 and the line of its error on the standard error stream.
    A failure of [main] ends with a status other than 0 and the standard
    error stream carries the underlying cause, the message of the
    exception as it was raised: [error: message] and the last line of
    the traceback for an [Exception], the message itself for
    [SystemExit]. The cause is all it carries: the script adds neither
    the account name nor the pool tag, and the validation failure is
    reported by one fixed message whatever they are. *)
Theorem failures_are_reported (rt : Runtime) (w : World) :
  (forall error_line,
     exit_status (script rt w (Refused error_line)) <> 0
     /\ stderr (script rt w (Refused error_line)) = [error_line])
  /\ (forall c e,
        main rt w (parse_args c) = raise e ->
        exit_status (script rt w (Parsed c)) <> 0
        /\ stderr (script rt w (Parsed c)) =
             match e with
             | SystemExit message => [message]
             | Exception cls message =>
                 [lit "error: " ++ message; traceback_last_line cls message]
             end
        /\ (forall entries,
              load_metadata rt w (metadata (parse_args c)) = ret (JDict entries) ->
              check_credentials (credential_id (parse_args c) entries)
                                (credential_hash (parse_args c) entries) <> ret tt ->
              stderr (script rt w (Parsed c)) = [missing_credentials])).
Proof.
  split.
  - intros error_line. split; [ discriminate | reflexivity ].
  - intros c e H.
    assert (Hfixed : forall entries,
               load_metadata rt w (metadata (parse_args c)) = ret (JDict entries) ->
               check_credentials (credential_id (parse_args c) entries)
                                 (credential_hash (parse_args c) entries) <> ret tt ->
               e = SystemExit missing_credentials).
    { intros entries Hload Hcheck. revert H. unfold main. rewrite Hload.
      cbn [bind ret]. rewrite bundle_of_dict.
      revert Hcheck. unfold check_credentials.
      destruct (negb (truthy (credential_id (parse_args c) entries))
                || negb (truthy (credential_hash (parse_args c) entries)));
        [ intros _ | congruence ].
      cbn [bind raise]. intros H. now inversion H. }
    cbn [script]. rewrite (run_failure rt w c e H).
    destruct e as [ message | cls message ]; cbn [exit_status stderr];
      (split; [ discriminate | ]); (split; [ reflexivity | ]);
      intros entries Hload Hcheck;
      specialize (Hfixed entries Hload Hcheck); congruence.
Qed.

Lemma failures_are_reported_witness :
  stderr (script Sample.runtime (Sample.world (JDict [])) (Parsed Sample.cli))
  = [missing_credentials].
Proof.
  apply (proj2 (failures_are_reported Sample.runtime (Sample.world (JDict [])))
           Sample.cli (SystemExit missing_credentials) eq_refl).
Defined.

(** ** The text of the bundle file *)

Lemma occurs_refl text : occurs text text.
Proof. exists [], []. now rewrite List.app_nil_r. Qed.


Lemma occurs_app_l part a b : occurs part a -> occurs part (a ++ b).
Proof.
  intros (p & q & ->). exists p, (q ++ b). now rewrite <- !List.app_assoc.
Qed.

Lemma occurs_app_r part a b : occurs part b -> occurs part (a ++ b).
Proof.
  intros (p & q & ->). exists (a ++ p), q. now rewrite <- !List.app_assoc.
Qed.

Lemma occurs_join sep part parts :
  In part parts -> occurs part (Encoder.join sep parts).
Proof.
  induction parts as [ | p rest IH ]; [ intros [] | ].
  intros [ -> | Hin ].
  - destruct rest; simpl; [ apply occurs_refl | ].
    apply occurs_app_l, occurs_refl.
  - destruct rest as [ | p' rest' ]; [ destruct Hin | ].
    change (Encoder.join sep (p :: p' :: rest'))
      with (p ++ sep ++ Encoder.join sep (p' :: rest')).
    now apply occurs_app_r, occurs_app_r, IH.
Qed.

Lemma occurs_member float_repr level key value entries :
  In (key, value) entries ->
  occurs (member float_repr level key value)
         (Encoder.iterencode float_repr level (JDict entries)).
Proof.
  intros Hin. destruct entries as [ | kv rest ]; [ destruct Hin | ].
  cbn [Encoder.iterencode].
  apply occurs_app_r, occurs_app_r, occurs_app_l, occurs_join.
  apply (in_map (fun kv => Encoder.encode_basestring (fst kv) ++ lit ": "
                           ++ Encoder.iterencode float_repr (S level) (snd kv))
                (kv :: rest) (key, value) Hin).
Qed.

Lemma occurs_value float_repr level key value :
  occurs (Encoder.iterencode float_repr (S level) value)
         (member float_repr level key value).
Proof. unfold member. apply occurs_app_r, occurs_app_r, occurs_refl. Qed.


(** C6. The bundle's [metadata] field is the decoded input metadata
    itself, every key and value as it was read, whatever the keys are;
    the file holds it as the member ["metadata": ...], the encoding of
    that same value. Nothing is added to it, removed from it or rewritten
    in it. *)
Theorem metadata_passed_through (rt : Runtime) (w : World)
    (args : Args) (meta bundle : json) :
  load_metadata rt w (metadata args) = ret meta ->
  emits rt w args bundle ->
  field bundle (lit "metadata") = Some meta
  /\ main rt w args =
       ret {| written_to := output args;
              written_text := Encoder.dumps (repr_float rt) bundle ++ [10%N] |}
  /\ occurs (member (repr_float rt) 0 (lit "metadata") meta)
            (Encoder.dumps (repr_float rt) bundle ++ [10%N]).
Proof.
  intros Hload H.
  destruct (emits_inv _ _ _ _ H)
    as (entries & session_name & token & Hload' & _ & _ & _ & _ & ->).
  rewrite Hload in Hload'. injection Hload' as ->.
  split; [ reflexivity | ]. split; [ apply H | ].
  apply occurs_app_l. unfold Encoder.dumps, make_bundle.
  apply occurs_member. simpl. tauto.
Qed.

Lemma metadata_passed_through_witness :
  field (make_bundle (lit "acct1") (lit "prod") (JInt 12345) (JStr (lit "abc"))
           (JStr (lit "+15550100")) JNull Sample.token (JDict Sample.meta))
        (lit "metadata") = Some (JDict Sample.meta).
Proof.
  apply (metadata_passed_through Sample.runtime
           (Sample.world (JDict Sample.meta)) (parse_args Sample.cli)).
  - reflexivity.
  - apply (emits_intro Sample.runtime (Sample.world (JDict Sample.meta))
             (parse_args Sample.cli) Sample.meta (lit "acct1") Sample.token);
      reflexivity.
Defined.

(** ** Reading back what [json.dump] wrote *)

(** *** Strings *)

Lemma scanstring_escape_char (c : N) (tail : pystr) :
  Decoder.scanstring (Encoder.escape_char c ++ tail) =
    match Decoder.scanstring tail with
    | Some (str, rest) => Some (c :: str, rest)
    | None => None
    end.
Proof.
  destruct (c <? 32)%N eqn:Hctl.
  - apply N.ltb_lt in Hctl.
    assert (Hc : (c = 0 \/ c = 1 \/ c = 2 \/ c = 3 \/ c = 4 \/ c = 5 \/ c = 6
                  \/ c = 7 \/ c = 8 \/ c = 9 \/ c = 10 \/ c = 11 \/ c = 12
                  \/ c = 13 \/ c = 14 \/ c = 15 \/ c = 16 \/ c = 17 \/ c = 18
                  \/ c = 19 \/ c = 20 \/ c = 21 \/ c = 22 \/ c = 23 \/ c = 24
                  \/ c = 25 \/ c = 26 \/ c = 27 \/ c = 28 \/ c = 29 \/ c = 30
                  \/ c = 31)%N) by lia.
    repeat (destruct Hc as [ -> | Hc ]; [ reflexivity | ]).
    subst c. reflexivity.
  - unfold Encoder.escape_char. rewrite Hctl.
    apply N.ltb_ge in Hctl.
    destruct (c =? 34)%N eqn:H34; [ apply N.eqb_eq in H34; now subst c | ].
    destruct (c =? 92)%N eqn:H92; [ apply N.eqb_eq in H92; now subst c | ].
    destruct (c =? 10)%N eqn:H10; [ apply N.eqb_eq in H10; lia | ].
    destruct (c =? 13)%N eqn:H13; [ apply N.eqb_eq in H13; lia | ].
    destruct (c =? 9)%N eqn:H9; [ apply N.eqb_eq in H9; lia | ].
    destruct (c =? 8)%N eqn:H8; [ apply N.eqb_eq in H8; lia | ].
    destruct (c =? 12)%N eqn:H12; [ apply N.eqb_eq in H12; lia | ].
    cbn [List.app Decoder.scanstring]. rewrite H34, H92.
    replace (c <? 32)%N with false by (symmetry; apply N.ltb_ge; lia).
    reflexivity.
Qed.

(** [scanstring] reads an encoded string back, from after its opening
    quote to after its closing quote. *)
Lemma scanstring_encoded (s rest : pystr) :
  Decoder.scanstring (List.flat_map Encoder.escape_char s ++ 34%N :: rest)
  = Some (s, rest).
Proof.
  induction s as [ | c s IH ]; [ reflexivity | ].
  cbn [List.flat_map]. rewrite <- List.app_assoc.
  now rewrite scanstring_escape_char, IH.
Qed.

(** *** Integers *)

Lemma digits_are_digits (d : uint) : digit_chars (Encoder.digits d).
Proof. induction d; simpl; constructor; auto. Qed.

Lemma span_digits_all (ds rest : pystr) :
  digit_chars ds -> number_end rest = true ->
  Decoder.span_digits (ds ++ rest) = (ds, rest).
Proof.
  intros Hds Hrest. induction Hds as [ | c ds Hc _ IH ].
  - destruct rest as [ | c r ]; [ reflexivity | ].
    simpl in *. destruct (Decoder.is_digit c); [ discriminate | reflexivity ].
  - simpl. now rewrite Hc, IH.
Qed.

Lemma digits_value_acc (d : uint) (acc : positive) :
  List.fold_left (fun a c => (a * 10 + (c - 48))%N) (Encoder.digits d) (Npos acc)
  = Npos (Pos.of_uint_acc d acc).
Proof.
  revert acc. induction d; intros acc; cbn [Encoder.digits Pos.of_uint_acc List.fold_left];
    [ reflexivity | .. ];
    match goal with
    | |- List.fold_left _ _ ?x = Npos (Pos.of_uint_acc _ ?y) =>
        replace x with (Npos y) by lia
    end; apply IHd.
Qed.

Lemma digits_value_of_uint (d : uint) :
  Decoder.digits_value (Encoder.digits d) = Pos.of_uint d.
Proof.
  unfold Decoder.digits_value.
  induction d; cbn [Encoder.digits Pos.of_uint List.fold_left];
    [ reflexivity | exact IHd | .. ];
    match goal with
    | |- List.fold_left _ _ ?x = Npos (Pos.of_uint_acc _ ?y) =>
        replace x with (Npos y) by lia
    end; apply digits_value_acc.
Qed.

Lemma nzhead_not_zero (d : uint) :
  match nzhead d with D0 _ => False | _ => True end.
Proof. induction d; simpl; auto. Qed.

(** The decimal digits of a positive number: a first digit that is not
    [0], then digits. *)
Lemma digits_of_positive (p : positive) :
  exists c ds,
    Encoder.digits (Pos.to_uint p) = c :: ds
    /\ Decoder.is_digit c = true /\ c <> 48%N /\ c <> 45%N /\ digit_chars ds.
Proof.
  assert (Hnorm : Pos.to_uint p = unorm (Pos.to_uint p)).
  { pose proof (DecimalPos.Unsigned.to_of (Pos.to_uint p)) as H.
    rewrite DecimalPos.Unsigned.of_to in H. simpl in H. congruence. }
  pose proof (DecimalPos.Unsigned.to_uint_nonzero p) as Hnz.
  pose proof (nzhead_not_zero (Pos.to_uint p)) as Hhead.
  pose proof (digits_are_digits (Pos.to_uint p)) as Hall.
  unfold unorm in Hnorm.
  destruct (nzhead (Pos.to_uint p)) eqn:Hnzhead;
    try contradiction; rewrite Hnorm in *;
    try (exfalso; apply Hnz; reflexivity);
    simpl in *; inversion Hall; subst;
    eexists _, _; (split; [ reflexivity | ]);
    repeat split; auto; discriminate.
Qed.

Lemma match_frac_none (rest : pystr) :
  number_end rest = true -> Decoder.match_frac rest = ([], rest).
Proof.
  destruct rest as [ | c r ]; [ reflexivity | ]. simpl.
  destruct (c =? 46)%N; [ | reflexivity ].
  rewrite !orb_true_r. discriminate.
Qed.

Lemma match_exp_none (rest : pystr) :
  number_end rest = true -> Decoder.match_exp rest = ([], rest).
Proof.
  destruct rest as [ | c r ]; [ reflexivity | ]. simpl.
  destruct (c =? 101)%N, (c =? 69)%N; try reflexivity;
    rewrite ?orb_true_r; discriminate.
Qed.

Lemma match_integer_positive (p : positive) (rest : pystr) :
  number_end rest = true ->
  Decoder.match_integer (Encoder.digits (Pos.to_uint p) ++ rest)
  = Some (Encoder.digits (Pos.to_uint p), rest).
Proof.
  intros Hrest.
  destruct (digits_of_positive p) as (c & ds & -> & Hc & H48 & H45 & Hds).
  unfold Decoder.match_integer. cbn [List.app].
  apply N.eqb_neq in H45, H48. rewrite H45, H48, Hc.
  now rewrite (span_digits_all ds rest Hds Hrest).
Qed.

Lemma parse_int_positive (p : positive) :
  Decoder.parse_int (Encoder.digits (Pos.to_uint p)) = Z.pos p.
Proof.
  destruct (digits_of_positive p) as (c & ds & Heq & _ & _ & H45 & _).
  unfold Decoder.parse_int. rewrite Heq.
  apply N.eqb_neq in H45. rewrite H45. rewrite <- Heq.
  now rewrite digits_value_of_uint, DecimalPos.Unsigned.of_to.
Qed.

Section ReadBack.

Variable float_repr : pyfloat -> pystr.
Variable float_of_token : pystr -> pyfloat.

(** [scan_number] reads an encoded integer back. *)
Lemma scan_number_intstr (z : Z) (rest : pystr) :
  number_end rest = true ->
  Decoder.scan_number float_of_token (Encoder.intstr z ++ rest)
  = Some (JInt z, rest).
Proof.
  intros Hrest. unfold Decoder.scan_number, Encoder.intstr.
  destruct z as [ | p | p ]; cbn [Z.to_int].
  - cbn [Encoder.digits N.to_uint List.app Decoder.match_integer].
    change (Decoder.match_integer (48%N :: rest)) with (Some ([48%N], rest)).
    cbv beta iota.
    now rewrite (match_frac_none _ Hrest), (match_exp_none _ Hrest).
  - rewrite (match_integer_positive p rest Hrest).
    rewrite (match_frac_none _ Hrest), (match_exp_none _ Hrest).
    now rewrite parse_int_positive.
  - cbn [List.app].
    assert (Hint : Decoder.match_integer
                     (45%N :: Encoder.digits (Pos.to_uint p) ++ rest)
                   = Some (45%N :: Encoder.digits (Pos.to_uint p), rest)).
    { destruct (digits_of_positive p) as (c & ds & -> & Hc & H48 & _ & Hds).
      unfold Decoder.match_integer. cbn [List.app N.eqb Pos.eqb].
      apply N.eqb_neq in H48. rewrite H48, Hc.
      now rewrite (span_digits_all ds rest Hds Hrest). }
    rewrite Hint.
    rewrite (match_frac_none _ Hrest), (match_exp_none _ Hrest).
    unfold Decoder.parse_int. cbn [N.eqb Pos.eqb].
    now rewrite digits_value_of_uint, DecimalPos.Unsigned.of_to.
Qed.

End ReadBack.

(** *** Values *)

Lemma need_list items : need (JList items) = S (need_items items).
Proof.
  reflexivity.
Qed.

Lemma need_dict entries : need (JDict entries) = S (need_entries entries).
Proof.
  cbn [need]. f_equal. induction entries as [ | [ k x ] r IH ]; [ reflexivity | ].
  cbn [need_entries List.fold_right snd]. f_equal. f_equal. exact IH.
Qed.

Section Valid.

Variable float_repr : pyfloat -> pystr.
Variable float_of_token : pystr -> pyfloat.

Lemma valid_list items : valid float_repr float_of_token (JList items)
  <-> List.Forall (valid float_repr float_of_token) items.
Proof.
  cbn [valid]. induction items as [ | x r IH ].
  - split; auto.
  - split.
    + intros [ Hx Hr ]. constructor; [ exact Hx | now apply IH ].
    + intros H. inversion H; subst. split; [ assumption | now apply IH ].
Qed.

Lemma valid_dict entries :
  valid float_repr float_of_token (JDict entries) <->
  List.NoDup (List.map fst entries)
  /\ List.Forall (fun kv => valid float_repr float_of_token (snd kv)) entries.
Proof.
  cbn [valid].
  assert (H : (fix all (l : list (pystr * json)) : Prop :=
                 match l with
                 | [] => True
                 | (_, x) :: r => valid float_repr float_of_token x /\ all r
                 end) entries
              <-> List.Forall (fun kv => valid float_repr float_of_token (snd kv)) entries).
  { induction entries as [ | [ k x ] r IH ].
    - split; auto.
    - split.
      + intros [ Hx Hr ]. constructor; [ exact Hx | now apply IH ].
      + intros H. inversion H; subst. split; [ assumption | now apply IH ]. }
  tauto.
Qed.

End Valid.

(** *** The scanner, one call at a time *)

Section ScanSteps.

Variable float_of_token : pystr -> pyfloat.

Lemma scan_once_string fuel r :
  Decoder.scan_once float_of_token (S fuel) (34%N :: r) =
    match Decoder.scanstring r with
    | Some (str, rest) => Some (JStr str, rest)
    | None => None
    end.
Proof. reflexivity. Qed.

Lemma scan_once_array fuel r :
  Decoder.scan_once float_of_token (S fuel) (91%N :: r) =
    match Decoder.skip_ws r with
    | c' :: r' =>
        if (c' =? 93)%N then Some (JList [], r')
        else
          match Decoder.array_items float_of_token fuel (c' :: r') with
          | Some (values, rest) => Some (JList values, rest)
          | None => None
          end
    | [] => None
    end.
Proof. reflexivity. Qed.

Lemma scan_once_object fuel r :
  Decoder.scan_once float_of_token (S fuel) (123%N :: r) =
    match Decoder.skip_ws r with
    | c' :: r' =>
        if (c' =? 125)%N then Some (JDict [], r')
        else if (c' =? 34)%N then
          match Decoder.object_items float_of_token fuel r' with
          | Some (pairs, rest) => Some (JDict (Decoder.dict_of_pairs pairs), rest)
          | None => None
          end
        else None
    | [] => None
    end.
Proof. reflexivity. Qed.

Lemma scan_once_fallthrough fuel c r :
  (c =? 34)%N = false -> (c =? 123)%N = false -> (c =? 91)%N = false ->
  (c =? 110)%N = false -> (c =? 116)%N = false -> (c =? 102)%N = false ->
  Decoder.scan_once float_of_token (S fuel) (c :: r) =
    match Decoder.scan_number float_of_token (c :: r) with
    | Some res => Some res
    | None => Decoder.scan_constant (c :: r)
    end.
Proof.
  intros H34 H123 H91 H110 H116 H102.
  cbn [Decoder.scan_once]. rewrite H34, H123, H91.
  change (Decoder.strip_prefix (lit "null") (c :: r))
    with (if (110 =? c)%N then Decoder.strip_prefix (lit "ull") r else None).
  change (Decoder.strip_prefix (lit "true") (c :: r))
    with (if (116 =? c)%N then Decoder.strip_prefix (lit "rue") r else None).
  change (Decoder.strip_prefix (lit "false") (c :: r))
    with (if (102 =? c)%N then Decoder.strip_prefix (lit "alse") r else None).
  rewrite (N.eqb_sym 110 c), (N.eqb_sym 116 c), (N.eqb_sym 102 c).
  now rewrite H110, H116, H102.
Qed.

Lemma array_items_step fuel s :
  Decoder.array_items float_of_token (S fuel) s =
    match Decoder.scan_once float_of_token fuel s with
    | None => None
    | Some (value, r) =>
        match Decoder.skip_ws r with
        | c :: r' =>
            if (c =? 93)%N then Some ([value], r')
            else if (c =? 44)%N then
              match Decoder.array_items float_of_token fuel (Decoder.skip_ws r') with
              | Some (values, rest) => Some (value :: values, rest)
              | None => None
              end
            else None
        | [] => None
        end
    end.
Proof. reflexivity. Qed.

Lemma object_items_step fuel s :
  Decoder.object_items float_of_token (S fuel) s =
    match Decoder.scanstring s with
    | None => None
    | Some (key, r) =>
        match Decoder.skip_ws r with
        | c :: r1 =>
            if (c =? 58)%N then
              match Decoder.scan_once float_of_token fuel (Decoder.skip_ws r1) with
              | None => None
              | Some (value, r2) =>
                  match Decoder.skip_ws r2 with
                  | c' :: r3 =>
                      if (c' =? 125)%N then Some ([(key, value)], r3)
                      else if (c' =? 44)%N then
                        match Decoder.skip_ws r3 with
                        | q :: r4 =>
                            if (q =? 34)%N then
                              match Decoder.object_items float_of_token fuel r4 with
                              | Some (pairs, rest) =>
                                  Some ((key, value) :: pairs, rest)
                              | None => None
                              end
                            else None
                        | [] => None
                        end
                      else None
                  | [] => None
                  end
              end
            else None
        | [] => None
        end
    end.
Proof. reflexivity. Qed.

Lemma scan_number_start s res :
  Decoder.scan_number float_of_token s = Some res ->
  exists c t, s = c :: t /\ (c = 45%N \/ Decoder.is_digit c = true).
Proof.
  unfold Decoder.scan_number, Decoder.match_integer.
  destruct s as [ | c t ]; [ discriminate | ].
  intros H. exists c, t. split; [ reflexivity | ].
  destruct (c =? 45)%N eqn:H45; [ left; now apply N.eqb_eq | right ].
  destruct (c =? 48)%N eqn:H48; [ apply N.eqb_eq in H48; now subst c | ].
  destruct (Decoder.is_digit c); [ reflexivity | discriminate ].
Qed.

Lemma digit_is_plain c :
  Decoder.is_digit c = true ->
  Decoder.is_ws c = false /\ (c =? 93)%N = false /\ (c =? 34)%N = false
  /\ (c =? 123)%N = false /\ (c =? 91)%N = false /\ (c =? 110)%N = false
  /\ (c =? 116)%N = false /\ (c =? 102)%N = false /\ c <> 65279%N.
Proof.
  unfold Decoder.is_digit, Decoder.is_ws. intros H.
  apply andb_true_iff in H. destruct H as [ H1 H2 ].
  apply N.leb_le in H1, H2.
  repeat split; rewrite ?orb_false_iff; repeat split;
    try (apply N.eqb_neq; lia); lia.
Qed.

(** A number [scan_number] reads is read by [scan_once]. *)
Lemma scan_once_number fuel s res :
  Decoder.scan_number float_of_token s = Some res ->
  Decoder.scan_once float_of_token (S fuel) s = Some res.
Proof.
  intros H. destruct (scan_number_start s res H) as (c & t & -> & [ -> | Hc ]).
  - rewrite scan_once_fallthrough by reflexivity. now rewrite H.
  - destruct (digit_is_plain c Hc)
      as (_ & _ & H34 & H123 & H91 & H110 & H116 & H102 & _).
    rewrite scan_once_fallthrough by assumption. now rewrite H.
Qed.

Lemma skip_ws_newline_indent level t :
  Decoder.skip_ws (Encoder.newline_indent level ++ t) = Decoder.skip_ws t.
Proof.
  unfold Encoder.newline_indent. cbn [List.app Decoder.skip_ws].
  change (Decoder.is_ws 10) with true. cbv iota.
  induction (2 * level)%nat as [ | n IH ]; [ reflexivity | exact IH ].
Qed.

Lemma skip_ws_plain c t :
  Decoder.is_ws c = false -> Decoder.skip_ws (c :: t) = c :: t.
Proof. intros H. cbn [Decoder.skip_ws]. now rewrite H. Qed.

End ScanSteps.

(** *** [dict(pairs)] of distinct keys *)

Lemma dict_set_fresh d key value :
  ~ In key (List.map fst d) -> Decoder.dict_set d key value = d ++ [(key, value)].
Proof.
  induction d as [ | [ k v ] rest IH ]; [ reflexivity | ].
  cbn [List.map fst In Decoder.dict_set List.app]. intros Hfresh.
  destruct (PyStr.eqb k key) eqn:Hk.
  - apply pystr_eqb_eq in Hk. tauto.
  - rewrite IH; [ reflexivity | tauto ].
Qed.

Lemma dict_of_pairs_acc pairs acc :
  List.NoDup (List.map fst (acc ++ pairs)) ->
  List.fold_left (fun d kv => Decoder.dict_set d (fst kv) (snd kv)) pairs acc
  = acc ++ pairs.
Proof.
  revert acc. induction pairs as [ | [ k v ] rest IH ]; intros acc Hnodup.
  - now rewrite List.app_nil_r.
  - cbn [List.fold_left fst snd].
    rewrite List.map_app in Hnodup. cbn [List.map fst] in Hnodup.
    pose proof (List.NoDup_remove_2 _ _ _ Hnodup) as Hfresh.
    rewrite dict_set_fresh by (intros Hin; apply Hfresh, List.in_or_app; now left).
    rewrite IH.
    + now rewrite <- List.app_assoc.
    + now rewrite <- List.app_assoc, List.map_app.
Qed.

Lemma dict_of_pairs_distinct pairs :
  List.NoDup (List.map fst pairs) -> Decoder.dict_of_pairs pairs = pairs.
Proof. intros H. unfold Decoder.dict_of_pairs. now rewrite dict_of_pairs_acc. Qed.

(** *** Every value *)

Section ReadValue.

Variable float_repr : pyfloat -> pystr.
Variable float_of_token : pystr -> pyfloat.

(** An encoded value starts with a character that is not a blank, does
    not close a list and is not a byte order mark. *)
Lemma encoded_start level v :
  valid float_repr float_of_token v ->
  exists c t,
    Encoder.iterencode float_repr level v = c :: t
    /\ Decoder.is_ws c = false /\ (c =? 93)%N = false /\ c <> 65279%N.
Proof.
  destruct v as [ | [ | ] | z | f | s | [ | x items ] | [ | kv entries ] ];
    intros Hvalid;
    try (eexists _, _; split; [ reflexivity | repeat split; discriminate ]).
  - cbn [Encoder.iterencode]. unfold Encoder.intstr.
    destruct z as [ | p | p ]; cbn [Z.to_int];
      try (eexists _, _; split; [ reflexivity | repeat split; discriminate ]).
    destruct (digits_of_positive p) as (c & ds & -> & Hc & _).
    destruct (digit_is_plain c Hc) as (Hws & H93 & _ & _ & _ & _ & _ & _ & Hbom).
    now exists c, ds.
  - destruct f as [ | [ | ] | neg m e ];
      try (eexists _, _; split; [ reflexivity | repeat split; discriminate ]).
    cbn [Encoder.iterencode Encoder.floatstr].
    pose proof (Hvalid [] eq_refl) as H. rewrite List.app_nil_r in H.
    destruct (scan_number_start _ _ _ H) as (c & t & -> & [ -> | Hc ]).
    + eexists _, _; split; [ reflexivity | repeat split; discriminate ].
    + destruct (digit_is_plain c Hc) as (Hws & H93 & _ & _ & _ & _ & _ & _ & Hbom).
      now exists c, t.
Qed.

Lemma array_items_encoded level items :
  items <> [] ->
  List.Forall (reads_back float_repr float_of_token) items ->
  List.Forall (valid float_repr float_of_token) items ->
  forall fuel rest,
    (need_items items <= fuel)%nat ->
    Decoder.array_items float_of_token fuel
      (Encoder.join (44%N :: Encoder.newline_indent (S level))
         (List.map (Encoder.iterencode float_repr (S level)) items)
       ++ Encoder.newline_indent level ++ 93%N :: rest)
    = Some (items, rest).
Proof.
  intros Hne Hread Hvalid.
  induction items as [ | x items IH ]; [ congruence | clear Hne ].
  inversion Hread as [ | ? ? Hx Hitems ]; subst.
  inversion Hvalid as [ | ? ? Vx Vitems ]; subst.
  intros fuel rest Hfuel.
  cbn [need_items List.fold_right] in Hfuel.
  destruct fuel as [ | fuel ]; [ lia | ].
  rewrite array_items_step.
  destruct items as [ | y items ].
  - cbn [List.map Encoder.join].
    rewrite (Hx Vx (S level) fuel) by (reflexivity || lia).
    rewrite skip_ws_newline_indent, skip_ws_plain by reflexivity.
    reflexivity.
  - change (Encoder.join (44%N :: Encoder.newline_indent (S level))
              (List.map (Encoder.iterencode float_repr (S level)) (x :: y :: items)))
      with (Encoder.iterencode float_repr (S level) x
            ++ (44%N :: Encoder.newline_indent (S level))
            ++ Encoder.join (44%N :: Encoder.newline_indent (S level))
                 (List.map (Encoder.iterencode float_repr (S level)) (y :: items))).
    rewrite <- !List.app_assoc.
    rewrite (Hx Vx (S level) fuel) by (reflexivity || lia).
    cbn [List.app]. rewrite skip_ws_plain by reflexivity.
    change (44 =? 93)%N with false. change (44 =? 44)%N with true. cbv iota.
    rewrite skip_ws_newline_indent.
    assert (Hstart : exists c t,
               Encoder.join (44%N :: Encoder.newline_indent (S level))
                 (List.map (Encoder.iterencode float_repr (S level)) (y :: items))
               = c :: t /\ Decoder.is_ws c = false).
    { inversion Vitems as [ | ? ? Vy _ ]; subst.
      destruct (encoded_start (S level) y Vy) as (c & t & Hy & Hws & _ & _).
      cbn [List.map Encoder.join]. rewrite Hy.
      destruct items; cbn [List.map]; eexists _, _; split; eauto; reflexivity. }
    destruct Hstart as (c & t & Hjoin & Hws).
    rewrite Hjoin at 1. cbn [List.app]. rewrite skip_ws_plain by exact Hws.
    change (c :: t ++ Encoder.newline_indent level ++ 93%N :: rest)
      with ((c :: t) ++ Encoder.newline_indent level ++ 93%N :: rest).
    rewrite <- Hjoin.
    rewrite IH; [ reflexivity | discriminate | assumption | assumption | ].
    cbn [need_items List.fold_right] in *. lia.
Qed.

Lemma member_app_tail level key value tail :
  (Encoder.encode_basestring key ++ lit ": "
   ++ Encoder.iterencode float_repr (S level) value) ++ tail
  = 34%N :: member_tail float_repr level key value tail.
Proof.
  unfold Encoder.encode_basestring, member_tail.
  change (lit ": ") with [58%N; 32%N].
  cbn [List.app]. now rewrite <- !List.app_assoc.
Qed.

Lemma object_items_encoded level entries :
  entries <> [] ->
  List.Forall (fun kv => reads_back float_repr float_of_token (snd kv)) entries ->
  List.Forall (fun kv => valid float_repr float_of_token (snd kv)) entries ->
  forall fuel rest,
    (need_entries entries <= fuel)%nat ->
    Decoder.object_items float_of_token fuel
      (List.tl
         (Encoder.join (44%N :: Encoder.newline_indent (S level))
            (List.map (fun kv => Encoder.encode_basestring (fst kv) ++ lit ": "
                                 ++ Encoder.iterencode float_repr (S level) (snd kv))
                      entries)
          ++ Encoder.newline_indent level ++ 125%N :: rest))
    = Some (entries, rest).
Proof.
  intros Hne Hread Hvalid.
  induction entries as [ | [ k x ] entries IH ]; [ congruence | clear Hne ].
  inversion Hread as [ | ? ? Hx Hentries ]; subst.
  inversion Hvalid as [ | ? ? Vx Ventries ]; subst.
  cbn [snd] in Hx, Vx.
  intros fuel rest Hfuel.
  cbn [need_entries List.fold_right snd] in Hfuel.
  destruct fuel as [ | fuel ]; [ lia | ].
  rewrite object_items_step.
  destruct (encoded_start (S level) x Vx) as (c & t & Hstart & Hws & _ & _).
  destruct entries as [ | [ k' y ] entries ].
  - cbn [List.map Encoder.join fst snd].
    rewrite member_app_tail. cbn [List.tl]. unfold member_tail.
    rewrite scanstring_encoded.
    rewrite skip_ws_plain by reflexivity.
    change (58 =? 58)%N with true. cbv iota.
    change (Decoder.skip_ws (32%N :: ?u)) with (Decoder.skip_ws u).
    cbn [Decoder.skip_ws]. change (Decoder.is_ws 32) with true. cbv iota.
    rewrite Hstart at 1. cbn [List.app]. rewrite skip_ws_plain by exact Hws.
    change (c :: t ++ Encoder.newline_indent level ++ 125%N :: rest)
      with ((c :: t) ++ Encoder.newline_indent level ++ 125%N :: rest).
    rewrite <- Hstart.
    rewrite (Hx Vx (S level) fuel) by (reflexivity || lia).
    rewrite skip_ws_newline_indent, skip_ws_plain by reflexivity.
    reflexivity.
  - change (Encoder.join (44%N :: Encoder.newline_indent (S level))
              (List.map (fun kv => Encoder.encode_basestring (fst kv) ++ lit ": "
                                   ++ Encoder.iterencode float_repr (S level) (snd kv))
                        ((k, x) :: (k', y) :: entries)))
      with ((Encoder.encode_basestring k ++ lit ": "
             ++ Encoder.iterencode float_repr (S level) x)
            ++ (44%N :: Encoder.newline_indent (S level))
            ++ Encoder.join (44%N :: Encoder.newline_indent (S level))
                 (List.map (fun kv => Encoder.encode_basestring (fst kv) ++ lit ": "
                                      ++ Encoder.iterencode float_repr (S level) (snd kv))
                           ((k', y) :: entries))).
    rewrite <- List.app_assoc.
    rewrite member_app_tail. cbn [List.tl]. unfold member_tail.
    rewrite scanstring_encoded.
    rewrite skip_ws_plain by reflexivity.
    change (58 =? 58)%N with true. cbv iota.
    cbn [Decoder.skip_ws]. change (Decoder.is_ws 32) with true. cbv iota.
    rewrite Hstart at 1. cbn [List.app]. rewrite skip_ws_plain by exact Hws.
    match goal with
    | |- context [Decoder.scan_once _ _ (c :: t ++ ?tail)] =>
        change (c :: t ++ tail) with ((c :: t) ++ tail)
    end.
    rewrite <- Hstart.
    rewrite <- List.app_assoc. cbn [List.app].
    rewrite (Hx Vx (S level) fuel) by (reflexivity || lia).
    rewrite skip_ws_plain by reflexivity.
    change (44 =? 125)%N with false. change (44 =? 44)%N with true. cbv iota.
    rewrite skip_ws_newline_indent.
    set (tail := Encoder.newline_indent level ++ 125%N :: rest) in *.
    set (members := Encoder.join (44%N :: Encoder.newline_indent (S level))
                      (List.map (fun kv => Encoder.encode_basestring (fst kv) ++ lit ": "
                                           ++ Encoder.iterencode float_repr (S level) (snd kv))
                                ((k', y) :: entries))) in *.
    assert (Hquote : members ++ tail = 34%N :: List.tl (members ++ tail)).
    { unfold members. cbn [List.map Encoder.join fst snd].
      destruct entries; cbn [List.map]; unfold Encoder.encode_basestring;
        reflexivity. }
    rewrite Hquote at 1. rewrite skip_ws_plain by reflexivity.
    change (34 =? 34)%N with true. cbv iota.
    unfold tail.
    rewrite IH; [ reflexivity | discriminate | assumption | assumption | ].
    cbn [need_entries List.fold_right snd] in *. lia.
Qed.

(** [scan_once] reads every valid value back from its encoding. *)
Lemma scan_once_encoded (v : json) : reads_back float_repr float_of_token v.
Proof.
  induction v as [ | b | z | f | s | items IH | entries IH ] using json_nested_ind;
    intros Hvalid level fuel rest Hfuel Hrest;
    (destruct fuel as [ | fuel ]; [ cbn [need] in Hfuel; lia | ]).
  - reflexivity.
  - destruct b; reflexivity.
  - cbn [Encoder.iterencode].
    apply scan_once_number. now apply scan_number_intstr.
  - destruct f as [ | [ | ] | neg m e ]; try reflexivity.
    cbn [Encoder.iterencode Encoder.floatstr].
    apply scan_once_number. now apply Hvalid.
  - cbn [Encoder.iterencode]. unfold Encoder.encode_basestring.
    cbn [List.app]. rewrite <- List.app_assoc.
    rewrite scan_once_string. cbn [List.app].
    now rewrite scanstring_encoded.
  - destruct items as [ | x items ]; [ reflexivity | ].
    rewrite need_list in Hfuel.
    apply valid_list in Hvalid.
    change (Encoder.iterencode float_repr level (JList (x :: items)))
      with (91%N :: Encoder.newline_indent (S level)
            ++ Encoder.join (44%N :: Encoder.newline_indent (S level))
                 (List.map (Encoder.iterencode float_repr (S level)) (x :: items))
            ++ Encoder.newline_indent level ++ [93%N]).
    cbn [List.app]. rewrite scan_once_array.
    rewrite <- !List.app_assoc. rewrite skip_ws_newline_indent.
    cbn [List.app].
    inversion Hvalid as [ | ? ? Vx _ ]; subst.
    destruct (encoded_start (S level) x Vx) as (c & t & Hstart & Hws & H93 & _).
    assert (Hjoin : exists t',
               Encoder.join (44%N :: Encoder.newline_indent (S level))
                 (List.map (Encoder.iterencode float_repr (S level)) (x :: items))
               = c :: t').
    { cbn [List.map Encoder.join]. rewrite Hstart.
      destruct items; cbn [List.map]; eexists; reflexivity. }
    destruct Hjoin as [ t' Hjoin ].
    rewrite Hjoin at 1. cbn [List.app]. rewrite skip_ws_plain by exact Hws.
    rewrite H93.
    match goal with
    | |- context [Decoder.array_items _ _ (c :: t' ++ ?tail)] =>
        change (c :: t' ++ tail) with ((c :: t') ++ tail)
    end.
    rewrite <- Hjoin.
    rewrite array_items_encoded;
      [ reflexivity | discriminate | assumption | assumption | lia ].
  - destruct entries as [ | kv entries ]; [ reflexivity | ].
    rewrite need_dict in Hfuel.
    apply valid_dict in Hvalid. destruct Hvalid as [ Hnodup Hvalid ].
    change (Encoder.iterencode float_repr level (JDict (kv :: entries)))
      with (123%N :: Encoder.newline_indent (S level)
            ++ Encoder.join (44%N :: Encoder.newline_indent (S level))
                 (List.map (fun kv => Encoder.encode_basestring (fst kv) ++ lit ": "
                                      ++ Encoder.iterencode float_repr (S level) (snd kv))
                           (kv :: entries))
            ++ Encoder.newline_indent level ++ [125%N]).
    cbn [List.app]. rewrite scan_once_object.
    rewrite <- !List.app_assoc. rewrite skip_ws_newline_indent.
    cbn [List.app].
    set (tail := Encoder.newline_indent level ++ 125%N :: rest).
    set (members := Encoder.join (44%N :: Encoder.newline_indent (S level))
                      (List.map (fun kv => Encoder.encode_basestring (fst kv) ++ lit ": "
                                           ++ Encoder.iterencode float_repr (S level) (snd kv))
                                (kv :: entries))).
    assert (Hquote : members ++ tail = 34%N :: List.tl (members ++ tail)).
    { unfold members. cbn [List.map Encoder.join fst snd].
      destruct entries; cbn [List.map]; unfold Encoder.encode_basestring;
        reflexivity. }
    rewrite Hquote at 1. rewrite skip_ws_plain by reflexivity.
    change (34 =? 125)%N with false. change (34 =? 34)%N with true. cbv iota.
    unfold members, tail.
    rewrite object_items_encoded;
      [ | discriminate | assumption | assumption | lia ].
    now rewrite dict_of_pairs_distinct.
Qed.

End ReadValue.

(** *** Fuel: the text is longer than the calls it takes *)

Section Fuel.

Variable float_repr : pyfloat -> pystr.
Variable float_of_token : pystr -> pyfloat.

Lemma need_items_length (sep : pystr) (parts : list pystr) (items : list json) :
  (2 <= List.length sep)%nat ->
  List.Forall2 (fun x part => (need x <= List.length part)%nat) items parts ->
  (need_items items <= List.length (Encoder.join sep parts) + 1)%nat.
Proof.
  intros Hsep H. induction H as [ | x part items parts Hx Hrest IH ].
  - cbn. lia.
  - cbn [need_items List.fold_right]. fold (need_items items).
    destruct parts as [ | part' parts ].
    + inversion Hrest; subst. cbn. lia.
    + change (Encoder.join sep (part :: part' :: parts))
        with (part ++ sep ++ Encoder.join sep (part' :: parts)).
      rewrite !List.length_app. lia.
Qed.

Lemma need_le_length (v : json) :
  valid float_repr float_of_token v ->
  forall level,
    (need v <= List.length (Encoder.iterencode float_repr level v))%nat.
Proof.
  induction v as [ | b | z | f | s | items IH | entries IH ] using json_nested_ind;
    intros Hvalid level;
    try (destruct (encoded_start float_repr float_of_token level _ Hvalid)
           as (c & t & -> & _); cbn; lia).
  - destruct items as [ | x items ]; [ cbn; lia | ].
    rewrite need_list. apply valid_list in Hvalid.
    change (Encoder.iterencode float_repr level (JList (x :: items)))
      with (91%N :: Encoder.newline_indent (S level)
            ++ Encoder.join (44%N :: Encoder.newline_indent (S level))
                 (List.map (Encoder.iterencode float_repr (S level)) (x :: items))
            ++ Encoder.newline_indent level ++ [93%N]).
    cbn [List.length]. rewrite !List.length_app.
    assert (H : (need_items (x :: items)
                 <= List.length
                      (Encoder.join (44%N :: Encoder.newline_indent (S level))
                         (List.map (Encoder.iterencode float_repr (S level))
                                   (x :: items))) + 1)%nat).
    { apply need_items_length; [ cbn; lia | ].
      clear - IH Hvalid. induction (x :: items) as [ | y l IHl ].
      - constructor.
      - inversion IH; subst. inversion Hvalid; subst.
        cbn [List.map]. constructor; auto. }
    cbn [List.length Encoder.newline_indent] in *. lia.
  - destruct entries as [ | kv entries ]; [ cbn; lia | ].
    rewrite need_dict. apply valid_dict in Hvalid. destruct Hvalid as [ _ Hvalid ].
    change (Encoder.iterencode float_repr level (JDict (kv :: entries)))
      with (123%N :: Encoder.newline_indent (S level)
            ++ Encoder.join (44%N :: Encoder.newline_indent (S level))
                 (List.map (fun kv => Encoder.encode_basestring (fst kv) ++ lit ": "
                                      ++ Encoder.iterencode float_repr (S level) (snd kv))
                           (kv :: entries))
            ++ Encoder.newline_indent level ++ [125%N]).
    cbn [List.length]. rewrite !List.length_app.
    assert (H : (need_items (List.map snd (kv :: entries))
                 <= List.length
                      (Encoder.join (44%N :: Encoder.newline_indent (S level))
                         (List.map (fun kv => Encoder.encode_basestring (fst kv)
                                              ++ lit ": "
                                              ++ Encoder.iterencode float_repr (S level)
                                                   (snd kv))
                                   (kv :: entries))) + 1)%nat).
    { apply need_items_length; [ cbn; lia | ].
      clear - IH Hvalid. induction (kv :: entries) as [ | y l IHl ].
      - constructor.
      - inversion IH; subst. inversion Hvalid; subst.
        cbn [List.map]. constructor; auto.
        rewrite !List.length_app.
        match goal with
        | H : valid _ _ (snd y) -> _, V : valid _ _ (snd y) |- _ =>
            specialize (H V (S level))
        end. lia. }
    assert (Hsame : need_entries (kv :: entries)
                    = need_items (List.map snd (kv :: entries))).
    { clear. induction (kv :: entries) as [ | y l IHl ]; [ reflexivity | ].
      unfold need_entries, need_items in *.
      cbn [List.map List.fold_right]. now rewrite IHl. }
    rewrite Hsame.
    cbn [List.length Encoder.newline_indent] in *. lia.
Qed.

(** The byte order mark test of [loads] changes no result: a text that
    starts with the mark holds no value either. *)
Lemma loads_scan (c : N) (t : pystr) :
  Decoder.loads float_of_token (c :: t) =
    match Decoder.scan_once float_of_token (S (List.length (c :: t)))
            (Decoder.skip_ws (c :: t)) with
    | Some (value, rest) =>
        match Decoder.skip_ws rest with
        | [] => Some value
        | _ :: _ => None
        end
    | None => None
    end.
Proof.
  unfold Decoder.loads.
  destruct c as [ | p ]; [ reflexivity | ].
  do 16 (destruct p as [ p | p | ]; try reflexivity).
Qed.

(** [json.loads] reads the text of a valid value back, with or without
    the line feed [main] writes after it. *)
Lemma loads_dumps (v : json) :
  valid float_repr float_of_token v ->
  Decoder.loads float_of_token (Encoder.dumps float_repr v) = Some v
  /\ Decoder.loads float_of_token (Encoder.dumps float_repr v ++ [10%N]) = Some v.
Proof.
  intros Hvalid. unfold Encoder.dumps.
  pose proof (need_le_length v Hvalid 0%nat) as Hneed.
  pose proof (scan_once_encoded float_repr float_of_token v Hvalid 0%nat) as Hread.
  destruct (encoded_start float_repr float_of_token 0%nat v Hvalid)
    as (c & t & Hstart & Hws & _).
  rewrite Hstart in *.
  split.
  - rewrite (loads_scan c t).
    rewrite skip_ws_plain by exact Hws.
    rewrite <- (List.app_nil_r (c :: t)) at 2.
    rewrite Hread by (reflexivity || lia). reflexivity.
  - change ((c :: t) ++ [10%N]) with (c :: (t ++ [10%N])).
    rewrite (loads_scan c (t ++ [10%N])).
    rewrite skip_ws_plain by exact Hws.
    change (c :: (t ++ [10%N])) with ((c :: t) ++ [10%N]).
    rewrite Hread by (reflexivity || rewrite List.length_app; lia). reflexivity.
Qed.

End Fuel.

(** ** Round trip of the bundle file *)

Section RoundTrip.

Variable rt : Runtime.

Lemma valid_dict_get entries key :
  valid (repr_float rt) (parse_float rt) (JDict entries) ->
  valid (repr_float rt) (parse_float rt) (dict_get entries key).
Proof.
  intros H. apply valid_dict in H. destruct H as [ _ H ].
  induction H as [ | [ k v ] rest Hv _ IH ]; cbn [dict_get]; [ exact I | ].
  destruct (PyStr.eqb k key); [ exact Hv | exact IH ].
Qed.

(** The bundle of a run over valid metadata is valid: its eight keys are
    distinct, and its values are strings, an integer override, or values
    of the metadata. *)
Lemma emitted_bundle_valid (w : World) (args : Args) (meta bundle : json) :
  load_metadata rt w (metadata args) = ret meta ->
  valid (repr_float rt) (parse_float rt) meta ->
  emits rt w args bundle ->
  valid (repr_float rt) (parse_float rt) bundle.
Proof.
  intros Hload Hmeta H.
  destruct (emits_inv _ _ _ _ H)
    as (entries & session_name & token & Hload' & _ & _ & _ & _ & ->).
  rewrite Hload in Hload'. injection Hload' as ->.
  unfold make_bundle. apply valid_dict. split.
  - cbn [List.map fst].
    repeat (constructor; [ cbv; intuition discriminate | ]). constructor.
  - repeat (apply List.Forall_cons); try apply List.Forall_nil; cbn [snd];
      try exact I; try exact Hmeta; try (now apply valid_dict_get).
    + unfold credential_id. destruct (api_id args); [ exact I | ].
      now apply valid_dict_get.
    + unfold credential_hash. destruct (api_hash args); [ exact I | ].
      now apply valid_dict_get.
Qed.

(** The file a run writes reads back as the bundle it encodes. *)
Lemma written_bundle_reads_back (w : World) (args : Args) (meta : json)
    (written : Written) :
  load_metadata rt w (metadata args) = ret meta ->
  valid (repr_float rt) (parse_float rt) meta ->
  main rt w args = ret written ->
  exists bundle,
    emits rt w args bundle
    /\ Decoder.loads (parse_float rt) (written_text written) = Some bundle
    /\ field bundle (lit "metadata") = Some meta.
Proof.
  intros Hload Hmeta Hmain.
  destruct (main_emits _ _ _ _ Hmain) as (bundle & Hemits & _ & ->).
  exists bundle. split; [ exact Hemits | ]. split.
  - apply loads_dumps. now apply (emitted_bundle_valid w args meta).
  - destruct (emits_inv _ _ _ _ Hemits)
      as (entries & session_name & token & Hload' & _ & _ & _ & _ & ->).
    rewrite Hload in Hload'. now injection Hload' as ->.
Qed.

End RoundTrip.

(** ** Further properties of the script *)

(** *** [str.strip] *)







(** *** The name and the pool of a bundle *)

Lemma nonempty_true (s : pystr) : nonempty s = true <-> s <> [].
Proof. destruct s; simpl; split; congruence. Qed.




(** X2. An explicit [--name] that is not blank wins over every metadata
    field: the bundle's name is that name, stripped, whatever the
    metadata holds under [name], [session_file], [phone] or
    [username]. *)
Theorem explicit_name_wins (rt : Runtime) (w : World) (c : CommandLine)
    (bundle : json) (n : pystr) :
  emits rt w (parse_args c) bundle ->
  opt_name c = Some n -> strip n <> [] ->
  field bundle (lit "name") = Some (JStr (strip n)).
Proof.
  intros H Hopt Hn.
  destruct (emits_inv _ _ _ _ H)
    as (entries & session_name & token & _ & _ & _ & Hname & _ & ->).
  revert Hname. unfold resolve_name. cbn [parse_args name]. rewrite Hopt.
  apply nonempty_true in Hn. rewrite Hn.
  intros Heq. injection Heq as <-. reflexivity.
Qed.

Lemma explicit_name_wins_witness :
  field (make_bundle (lit "bot 7") (lit "prod") (JInt 12345) (JStr (lit "abc"))
           (JStr (lit "+15550100")) JNull Sample.token
           (JDict ((lit "name", JStr (lit "other")) :: Sample.meta)))
        (lit "name") = Some (JStr (strip (lit " bot 7 "))).
Proof.
  apply (explicit_name_wins Sample.runtime
           (Sample.world (JDict ((lit "name", JStr (lit "other")) :: Sample.meta)))
           (Sample.with_name (Some (lit " bot 7 ")) Sample.cli)).
  - apply (emits_intro Sample.runtime
             (Sample.world (JDict ((lit "name", JStr (lit "other")) :: Sample.meta)))
             (parse_args (Sample.with_name (Some (lit " bot 7 ")) Sample.cli))
             ((lit "name", JStr (lit "other")) :: Sample.meta)
             (lit "bot 7") Sample.token);
      reflexivity.
  - reflexivity.
  - discriminate.
Defined.

(** *** Metadata that is not an object *)

Lemma py_get_not_dict (meta : json) (key : pystr) :
  (forall entries, meta <> JDict entries) ->
  py_get meta key =
    raise (Exception (lit "AttributeError")
             (lit "'" ++ type_name meta ++ lit "' object has no attribute 'get'")).
Proof.
  intros Hnot. destruct meta; try reflexivity. now destruct (Hnot entries).
Qed.

(** X3. When the metadata file holds JSON that is not an object (a list,
    a string, a number, [null]), the run never writes a bundle and ends
    with status 1; unless both credentials are overridden it fails with
    the [AttributeError] of the first [metadata.get], before the session
    is opened. *)
Theorem metadata_must_be_object (rt : Runtime) (w : World) (c : CommandLine)
    (meta : json) :
  load_metadata rt w (metadata (parse_args c)) = ret meta ->
  (forall entries, meta <> JDict entries) ->
  bundle_file (run rt w c) = None
  /\ exit_status (run rt w c) = 1
  /\ (opt_api_id c = None \/ opt_api_hash c = None ->
      main rt w (parse_args c) =
        raise (Exception (lit "AttributeError")
                 (lit "'" ++ type_name meta
                  ++ lit "' object has no attribute 'get'"))).
Proof.
  intros Hload Hnot.
  assert (Hbuilt : exists e,
             (x <- load_metadata rt w (metadata (parse_args c)) ;;
              bundle_of w (parse_args c) x) = raise e).
  { rewrite Hload. cbn [bind ret].
    destruct (bundle_of w (parse_args c) meta) as [ e | bundle ] eqn:Hbundle.
    - now exists e.
    - destruct (bundle_of_not_dict _ _ _ _ Hbundle) as [ entries -> ].
      now destruct (Hnot entries). }
  destruct Hbuilt as [ e Hbuilt ].
  assert (Hfail : main rt w (parse_args c) = raise e).
  { unfold main. unfold raise in *. revert Hbuilt.
    destruct (load_metadata rt w (metadata (parse_args c))) as [ e' | x ];
      cbn [bind]; [ intros H; now injection H as -> | ].
    now intros ->. }
  rewrite (run_failure rt w c e Hfail).
  rewrite (left_by_failure_early rt w _ e Hbuilt).
  split; [ now destruct e | ].
  split; [ now destruct e | ].
  intros Hopt. unfold main. rewrite Hload. cbn [bind ret].
  unfold bundle_of, resolve_api_id, resolve_api_hash. cbn [parse_args api_id api_hash].
  destruct (opt_api_id c) as [ z | ].
  - destruct Hopt as [ Hopt | Hopt ]; [ discriminate | ]. rewrite Hopt.
    cbn [bind ret]. now rewrite (py_get_not_dict meta _ Hnot).
  - now rewrite (py_get_not_dict meta _ Hnot).
Qed.

Lemma metadata_must_be_object_witness :
  bundle_file (run Sample.runtime (Sample.world (JList [JInt 1; JInt 2])) Sample.cli)
  = None.
Proof.
  apply (metadata_must_be_object Sample.runtime
           (Sample.world (JList [JInt 1; JInt 2])) Sample.cli
           (JList [JInt 1; JInt 2]) eq_refl).
  discriminate.
Defined.

(** *** The bundle is not metadata *)

(** X4. The bundle format is not the metadata format: a run that reads
    an emitted bundle as its metadata, without both credential
    overrides, fails validation, because the bundle holds the
    credentials under [api_id] and [api_hash], not [app_id] and
    [app_hash]. *)
Theorem emitted_bundle_is_not_metadata (rt : Runtime) (w : World) (args : Args)
    (bundle : json) (rt' : Runtime) (w' : World) (c' : CommandLine) :
  emits rt w args bundle ->
  load_metadata rt' w' (metadata (parse_args c')) = ret bundle ->
  opt_api_id c' = None \/ opt_api_hash c' = None ->
  main rt' w' (parse_args c') = raise (SystemExit missing_credentials).
Proof.
  intros H Hload Hopt.
  destruct (emits_inv _ _ _ _ H)
    as (entries & session_name & token & _ & _ & _ & _ & _ & ->).
  unfold main. rewrite Hload. cbn [bind ret].
  unfold make_bundle. rewrite bundle_of_dict.
  rewrite check_credentials_fails; [ reflexivity | ].
  unfold credential_id, credential_hash. cbn [parse_args api_id api_hash].
  destruct Hopt as [ -> | -> ]; [ left | right ]; reflexivity.
Qed.

Lemma emitted_bundle_is_not_metadata_witness :
  main Sample.runtime
    (Sample.world
       (make_bundle (lit "acct1") (lit "prod") (JInt 12345) (JStr (lit "abc"))
          (JStr (lit "+15550100")) JNull Sample.token (JDict Sample.meta)))
    (parse_args Sample.cli)
  = raise (SystemExit missing_credentials).
Proof.
  apply (emitted_bundle_is_not_metadata Sample.runtime
           (Sample.world (JDict Sample.meta)) (parse_args Sample.cli)
           (make_bundle (lit "acct1") (lit "prod") (JInt 12345) (JStr (lit "abc"))
              (JStr (lit "+15550100")) JNull Sample.token (JDict Sample.meta))).
  - apply (emits_intro Sample.runtime (Sample.world (JDict Sample.meta))
             (parse_args Sample.cli) Sample.meta (lit "acct1") Sample.token);
      reflexivity.
  - reflexivity.
  - left. reflexivity.
Defined.

(** *** [dict(pairs)] when a key is repeated *)

Lemma dict_set_get d k v key :
  dict_get (Decoder.dict_set d k v) key
  = if PyStr.eqb k key then v else dict_get d key.
Proof.
  induction d as [ | [ k' v' ] rest IH ]; cbn [Decoder.dict_set dict_get].
  - reflexivity.
  - destruct (PyStr.eqb k' k) eqn:Hk'; cbn [dict_get].
    + apply pystr_eqb_eq in Hk'. subst k'.
      now destruct (PyStr.eqb k key).
    + destruct (PyStr.eqb k' key) eqn:Hkey; [ | exact IH ].
      apply pystr_eqb_eq in Hkey. subst k'.
      destruct (PyStr.eqb k key) eqn:Hk; [ | reflexivity ].
      apply pystr_eqb_eq in Hk. subst k. now rewrite pystr_eqb_refl in Hk'.
Qed.

Lemma dict_get_app l d d' key :
  dict_get d key = dict_get d' key -> dict_get (l ++ d) key = dict_get (l ++ d') key.
Proof.
  intros H. induction l as [ | [ k v ] l IH ]; cbn [List.app dict_get]; [ exact H | ].
  now destruct (PyStr.eqb k key).
Qed.

Lemma dict_set_keys d k v :
  List.map fst (Decoder.dict_set d k v)
  = if List.existsb (fun k' => PyStr.eqb k' k) (List.map fst d)
    then List.map fst d else List.map fst d ++ [k].
Proof.
  induction d as [ | [ k' v' ] rest IH ];
    cbn [Decoder.dict_set List.map fst List.existsb List.app]; [ reflexivity | ].
  destruct (PyStr.eqb k' k); cbn [orb List.map fst]; [ reflexivity | ].
  rewrite IH. now destruct (List.existsb _ _).
Qed.

Lemma dict_set_nodup d k v :
  List.NoDup (List.map fst d) -> List.NoDup (List.map fst (Decoder.dict_set d k v)).
Proof.
  intros H. rewrite dict_set_keys.
  destruct (List.existsb (fun k' => PyStr.eqb k' k) (List.map fst d)) eqn:Hin;
    [ exact H | ].
  apply List.NoDup_app; [ exact H | repeat constructor; intros [] | ].
  intros k' Hk' [ <- | [] ].
  assert (Htrue : List.existsb (fun k' => PyStr.eqb k' k) (List.map fst d) = true).
  { apply List.existsb_exists. exists k. split; [ exact Hk' | apply pystr_eqb_refl ]. }
  congruence.
Qed.

Lemma dict_set_values (P : json -> Prop) d k v :
  List.Forall (fun kv => P (snd kv)) d -> P v ->
  List.Forall (fun kv => P (snd kv)) (Decoder.dict_set d k v).
Proof.
  intros Hd Hv. induction Hd as [ | [ k' v' ] rest Hv' Hrest IH ];
    cbn [Decoder.dict_set].
  - repeat constructor. exact Hv.
  - destruct (PyStr.eqb k' k); constructor; cbn [snd] in *; assumption.
Qed.

Lemma dict_of_pairs_invariant (P : json -> Prop) pairs acc :
  List.NoDup (List.map fst acc) ->
  List.Forall (fun kv => P (snd kv)) acc ->
  List.Forall (fun kv => P (snd kv)) pairs ->
  List.NoDup (List.map fst
    (List.fold_left (fun d kv => Decoder.dict_set d (fst kv) (snd kv)) pairs acc))
  /\ List.Forall (fun kv => P (snd kv))
       (List.fold_left (fun d kv => Decoder.dict_set d (fst kv) (snd kv)) pairs acc).
Proof.
  intros Hnodup Hacc Hpairs. revert acc Hnodup Hacc.
  induction Hpairs as [ | [ k v ] rest Hv _ IH ]; intros acc Hnodup Hacc;
    cbn [List.fold_left fst snd]; [ auto | ].
  apply IH; [ now apply dict_set_nodup | now apply dict_set_values ].
Qed.

Lemma dict_of_pairs_get_acc pairs acc key :
  dict_get (List.fold_left (fun d kv => Decoder.dict_set d (fst kv) (snd kv))
              pairs acc) key
  = dict_get (List.rev pairs ++ acc) key.
Proof.
  revert acc. induction pairs as [ | [ k v ] rest IH ]; intros acc;
    cbn [List.fold_left fst snd List.rev]; [ reflexivity | ].
  rewrite IH, <- List.app_assoc. cbn [List.app].
  apply dict_get_app. rewrite dict_set_get. reflexivity.
Qed.

(** X6. When the text of a JSON object repeats a key, [json.load] keeps
    one entry for it, with the value of its last occurrence: the decoded
    dict holds no key twice, and a lookup in it gives what a lookup from
    the end of the pairs gives. *)
Theorem repeated_key_last_wins (pairs : list (pystr * json)) :
  List.NoDup (dict_keys (Decoder.dict_of_pairs pairs))
  /\ forall key,
       dict_get (Decoder.dict_of_pairs pairs) key = dict_get (List.rev pairs) key.
Proof.
  split.
  - unfold dict_keys, Decoder.dict_of_pairs.
    apply (dict_of_pairs_invariant (fun _ => True)).
    + constructor.
    + constructor.
    + induction pairs; constructor; auto.
  - intros key. unfold Decoder.dict_of_pairs.
    now rewrite dict_of_pairs_get_acc, List.app_nil_r.
Qed.

(** *** What [json.load] returns *)

Lemma distinct_keys_list items :
  distinct_keys (JList items) <-> List.Forall distinct_keys items.
Proof.
  cbn [distinct_keys]. induction items as [ | x r IH ].
  - split; auto.
  - split.
    + intros [ Hx Hr ]. constructor; [ exact Hx | now apply IH ].
    + intros H. inversion H; subst. split; [ assumption | now apply IH ].
Qed.

Lemma distinct_keys_dict entries :
  distinct_keys (JDict entries) <->
  List.NoDup (List.map fst entries)
  /\ List.Forall (fun kv => distinct_keys (snd kv)) entries.
Proof.
  cbn [distinct_keys].
  assert (H : (fix all (l : list (pystr * json)) : Prop :=
                 match l with
                 | [] => True
                 | (_, x) :: r => distinct_keys x /\ all r
                 end) entries
              <-> List.Forall (fun kv => distinct_keys (snd kv)) entries).
  { induction entries as [ | [ k x ] r IH ].
    - split; auto.
    - split.
      + intros [ Hx Hr ]. constructor; [ exact Hx | now apply IH ].
      + intros H. inversion H; subst. split; [ assumption | now apply IH ]. }
  tauto.
Qed.

Section Loaded.

Variable float_of_token : pystr -> pyfloat.

Lemma scan_once_step fuel s :
  Decoder.scan_once float_of_token (S fuel) s =
    match s with
    | [] => None
    | c :: r =>
        if (c =? 34)%N then
          match Decoder.scanstring r with
          | Some (str, rest) => Some (JStr str, rest)
          | None => None
          end
        else if (c =? 123)%N then
          match Decoder.skip_ws r with
          | c' :: r' =>
              if (c' =? 125)%N then Some (JDict [], r')
              else if (c' =? 34)%N then
                match Decoder.object_items float_of_token fuel r' with
                | Some (pairs, rest) =>
                    Some (JDict (Decoder.dict_of_pairs pairs), rest)
                | None => None
                end
              else None
          | [] => None
          end
        else if (c =? 91)%N then
          match Decoder.skip_ws r with
          | c' :: r' =>
              if (c' =? 93)%N then Some (JList [], r')
              else
                match Decoder.array_items float_of_token fuel (c' :: r') with
                | Some (values, rest) => Some (JList values, rest)
                | None => None
                end
          | [] => None
          end
        else
          match Decoder.strip_prefix (lit "null") s with
          | Some rest => Some (JNull, rest)
          | None =>
          match Decoder.strip_prefix (lit "true") s with
          | Some rest => Some (JBool true, rest)
          | None =>
          match Decoder.strip_prefix (lit "false") s with
          | Some rest => Some (JBool false, rest)
          | None =>
          match Decoder.scan_number float_of_token s with
          | Some res => Some res
          | None => Decoder.scan_constant s
          end end end end
    end.
Proof. reflexivity. Qed.

(** A number or a constant is a scalar. *)
Lemma scan_number_is_scalar s v r :
  Decoder.scan_number float_of_token s = Some (v, r) ->
  (exists z, v = JInt z) \/ (exists f, v = JFloat f).
Proof.
  unfold Decoder.scan_number.
  destruct (Decoder.match_integer s) as [ [ integer r0 ] | ]; [ | discriminate ].
  destruct (Decoder.match_frac r0) as [ frac r1 ].
  destruct (Decoder.match_exp r1) as [ exp r2 ].
  destruct frac, exp; intros H; injection H as <- <-; eauto.
Qed.

Lemma scan_constant_is_float s v r :
  Decoder.scan_constant s = Some (v, r) -> exists f, v = JFloat f.
Proof.
  unfold Decoder.scan_constant.
  repeat match goal with
         | |- context [match ?x with Some _ => _ | None => _ end] => destruct x
         end; intros H; try discriminate; injection H as <- <-; eauto.
Qed.

Lemma scan_keeps_keys_distinct fuel :
  (forall s v r,
      Decoder.scan_once float_of_token fuel s = Some (v, r) -> distinct_keys v)
  /\ (forall s vs r,
        Decoder.array_items float_of_token fuel s = Some (vs, r) ->
        List.Forall distinct_keys vs)
  /\ (forall s ps r,
        Decoder.object_items float_of_token fuel s = Some (ps, r) ->
        List.Forall (fun kv => distinct_keys (snd kv)) ps).
Proof.
  induction fuel as [ | fuel (IHscan & IHarray & IHobject) ].
  - repeat split; discriminate.
  - split; [ | split ].
    + intros s v r. rewrite scan_once_step.
      destruct s as [ | c t ]; [ discriminate | ].
      destruct (c =? 34)%N.
      { destruct (Decoder.scanstring t) as [ [ str rest ] | ]; [ | discriminate ].
        intros H. injection H as <- <-. exact I. }
      destruct (c =? 123)%N.
      { destruct (Decoder.skip_ws t) as [ | c' r' ]; [ discriminate | ].
        destruct (c' =? 125)%N.
        - intros H. injection H as <- <-. apply distinct_keys_dict.
          split; constructor.
        - destruct (c' =? 34)%N; [ | discriminate ].
          destruct (Decoder.object_items float_of_token fuel r')
            as [ [ pairs rest ] | ] eqn:Hitems; [ | discriminate ].
          intros H. injection H as <- <-. apply distinct_keys_dict.
          unfold Decoder.dict_of_pairs.
          apply (dict_of_pairs_invariant distinct_keys);
            [ constructor | constructor | exact (IHobject _ _ _ Hitems) ]. }
      destruct (c =? 91)%N.
      { destruct (Decoder.skip_ws t) as [ | c' r' ]; [ discriminate | ].
        destruct (c' =? 93)%N.
        - intros H. injection H as <- <-. exact I.
        - destruct (Decoder.array_items float_of_token fuel (c' :: r'))
            as [ [ values rest ] | ] eqn:Hitems; [ | discriminate ].
          intros H. injection H as <- <-. apply distinct_keys_list.
          exact (IHarray _ _ _ Hitems). }
      destruct (Decoder.strip_prefix (lit "null") (c :: t));
        [ intros H; injection H as <- <-; exact I | ].
      destruct (Decoder.strip_prefix (lit "true") (c :: t));
        [ intros H; injection H as <- <-; exact I | ].
      destruct (Decoder.strip_prefix (lit "false") (c :: t));
        [ intros H; injection H as <- <-; exact I | ].
      destruct (Decoder.scan_number float_of_token (c :: t))
        as [ [ v' r' ] | ] eqn:Hnumber.
      { intros H. injection H as <- <-.
        destruct (scan_number_is_scalar _ _ _ Hnumber) as [ [ z -> ] | [ f -> ] ];
          exact I. }
      intros H. destruct (scan_constant_is_float _ _ _ H) as [ f -> ]. exact I.
    + intros s vs r. rewrite array_items_step.
      destruct (Decoder.scan_once float_of_token fuel s)
        as [ [ value r0 ] | ] eqn:Hvalue; [ | discriminate ].
      destruct (Decoder.skip_ws r0) as [ | c r' ]; [ discriminate | ].
      destruct (c =? 93)%N.
      { intros H. injection H as <- <-. constructor; [ | constructor ].
        exact (IHscan _ _ _ Hvalue). }
      destruct (c =? 44)%N; [ | discriminate ].
      destruct (Decoder.array_items float_of_token fuel (Decoder.skip_ws r'))
        as [ [ values rest ] | ] eqn:Hrest; [ | discriminate ].
      intros H. injection H as <- <-. constructor.
      * exact (IHscan _ _ _ Hvalue).
      * exact (IHarray _ _ _ Hrest).
    + intros s ps r. rewrite object_items_step.
      destruct (Decoder.scanstring s) as [ [ key r0 ] | ]; [ | discriminate ].
      destruct (Decoder.skip_ws r0) as [ | c r1 ]; [ discriminate | ].
      destruct (c =? 58)%N; [ | discriminate ].
      destruct (Decoder.scan_once float_of_token fuel (Decoder.skip_ws r1))
        as [ [ value r2 ] | ] eqn:Hvalue; [ | discriminate ].
      destruct (Decoder.skip_ws r2) as [ | c' r3 ]; [ discriminate | ].
      destruct (c' =? 125)%N.
      { intros H. injection H as <- <-. constructor; [ | constructor ].
        exact (IHscan _ _ _ Hvalue). }
      destruct (c' =? 44)%N; [ | discriminate ].
      destruct (Decoder.skip_ws r3) as [ | q r4 ]; [ discriminate | ].
      destruct (q =? 34)%N; [ | discriminate ].
      destruct (Decoder.object_items float_of_token fuel r4)
        as [ [ pairs rest ] | ] eqn:Hrest; [ | discriminate ].
      intros H. injection H as <- <-. constructor.
      * exact (IHscan _ _ _ Hvalue).
      * exact (IHobject _ _ _ Hrest).
Qed.

Lemma loads_keeps_keys_distinct s v :
  Decoder.loads float_of_token s = Some v -> distinct_keys v.
Proof.
  destruct s as [ | c t ].
  - discriminate.
  - rewrite loads_scan.
    destruct (Decoder.scan_once float_of_token (S (List.length (c :: t)))
                (Decoder.skip_ws (c :: t))) as [ [ value rest ] | ] eqn:Hscan;
      [ | discriminate ].
    destruct (Decoder.skip_ws rest); [ | discriminate ].
    intros H. injection H as <-.
    exact (proj1 (scan_keeps_keys_distinct _) _ _ _ Hscan).
Qed.

End Loaded.

(** X7. Whatever the metadata file holds, the metadata [load_metadata]
    returns has no key twice in any of its dicts, at any depth; so
    [metadata.get] has one value to give for a key. *)
Theorem loaded_metadata_keys_distinct (rt : Runtime) (w : World) (p : path)
    (meta : json) :
  load_metadata rt w p = ret meta -> distinct_keys meta.
Proof.
  unfold load_metadata.
  destruct (read_text w p) as [ e | text ]; cbn [bind ret raise]; [ discriminate | ].
  intros H. apply json_load_inv in H.
  exact (loads_keeps_keys_distinct _ _ _ (proj2 H)).
Qed.

Lemma loaded_metadata_keys_distinct_witness :
  distinct_keys (JDict Sample.meta).
Proof.
  apply (loaded_metadata_keys_distinct Sample.runtime
           (Sample.world (JDict Sample.meta)) (opt_metadata Sample.cli)).
  reflexivity.
Defined.

(** *** Reading the bundle file again *)

Lemma valid_split (float_repr : pyfloat -> pystr)
    (float_of_token : pystr -> pyfloat) (v : json) :
  valid float_repr float_of_token v
  <-> distinct_keys v /\ floats_read_back float_repr float_of_token v.
Proof.
  induction v as [ | b | z | f | s | items IH | entries IH ] using json_nested_ind;
    try (cbn; tauto).
  - cbn [valid distinct_keys floats_read_back].
    induction IH as [ | x r Hx _ IHr ]; [ tauto | ].
    rewrite Hx, IHr. tauto.
  - cbn [valid distinct_keys floats_read_back].
    assert (H : (fix all (l : list (pystr * json)) : Prop :=
                   match l with
                   | [] => True
                   | (_, x) :: r => valid float_repr float_of_token x /\ all r
                   end) entries
                <-> (fix all (l : list (pystr * json)) : Prop :=
                       match l with
                       | [] => True
                       | (_, x) :: r => distinct_keys x /\ all r
                       end) entries
                    /\ (fix all (l : list (pystr * json)) : Prop :=
                          match l with
                          | [] => True
                          | (_, x) :: r =>
                              floats_read_back float_repr float_of_token x /\ all r
                          end) entries).
    { induction IH as [ | [ k x ] r Hx _ IHr ]; [ tauto | ].
      cbn [snd] in Hx. rewrite Hx, IHr. tauto. }
    tauto.
Qed.

(** X9. The text determines the value: two valid values with the same
    encoding are the same value, so two different bundles never give
    the same file. *)
Theorem dumps_injective (float_repr : pyfloat -> pystr)
    (float_of_token : pystr -> pyfloat) (b1 b2 : json) :
  valid float_repr float_of_token b1 ->
  valid float_repr float_of_token b2 ->
  Encoder.dumps float_repr b1 = Encoder.dumps float_repr b2 ->
  b1 = b2.
Proof.
  intros H1 H2 Heq.
  pose proof (proj1 (loads_dumps float_repr float_of_token b1 H1)) as L1.
  pose proof (proj1 (loads_dumps float_repr float_of_token b2 H2)) as L2.
  rewrite Heq in L1. congruence.
Qed.

Lemma dumps_injective_witness :
  JList [JInt 1; JStr (lit "a")] = JList [JInt 1; JStr (lit "a")].
Proof.
  apply (dumps_injective (repr_float Sample.runtime) (parse_float Sample.runtime)).
  - cbn. tauto.
  - cbn. tauto.
  - reflexivity.
Defined.

(** ** The fuel of the scanner *)

Lemma skip_ws_length (s : pystr) :
  (List.length (Decoder.skip_ws s) <= List.length s)%nat.
Proof.
  induction s as [ | c r IH ]; cbn [Decoder.skip_ws List.length]; [ lia | ].
  destruct (Decoder.is_ws c); cbn [List.length]; lia.
Qed.

Lemma strip_prefix_length (p s r : pystr) :
  Decoder.strip_prefix p s = Some r ->
  List.length s = (List.length p + List.length r)%nat.
Proof.
  revert s. induction p as [ | a p IH ]; intros s; cbn [Decoder.strip_prefix].
  - intros H. now injection H as <-.
  - destruct s as [ | b s ]; [ discriminate | ].
    destruct (a =? b)%N; [ | discriminate ].
    intros H. cbn [List.length]. now rewrite (IH _ H).
Qed.

Lemma span_digits_length (s ds r : pystr) :
  Decoder.span_digits s = (ds, r) ->
  List.length s = (List.length ds + List.length r)%nat.
Proof.
  revert ds r. induction s as [ | c s IH ]; intros ds r;
    cbn [Decoder.span_digits].
  - intros H. now injection H as <- <-.
  - destruct (Decoder.is_digit c).
    + destruct (Decoder.span_digits s) as [ ds' r' ].
      intros H. injection H as <- <-. cbn [List.length].
      now rewrite (IH _ _ eq_refl).
    + intros H. now injection H as <- <-.
Qed.

Lemma scanstring_length (n : nat) (s str r : pystr) :
  (List.length s <= n)%nat ->
  Decoder.scanstring s = Some (str, r) ->
  (List.length r < List.length s)%nat.
Proof.
  revert s str r. induction n as [ | n IH ]; intros s str r Hlen H.
  - destruct s; [ discriminate | cbn [List.length] in Hlen; lia ].
  - destruct s as [ | c t ]; [ discriminate | ].
    cbn [Decoder.scanstring] in H. cbn [List.length] in *.
    repeat match type of H with
           | context [match ?x with _ => _ end] =>
               destruct x eqn:?; try discriminate; cbn [List.length] in *
           end;
      injection H as <- <-;
      try lia;
      match goal with
      | E : Decoder.scanstring ?u = Some (_, ?rest) |- _ =>
          assert (List.length rest < List.length u)%nat
            by (eapply (IH u); [ cbn [List.length] in *; lia | exact E ]);
          cbn [List.length] in *; lia
      end.
Qed.

Lemma match_integer_length (s integer r : pystr) :
  Decoder.match_integer s = Some (integer, r) ->
  (List.length r < List.length s)%nat.
Proof.
  unfold Decoder.match_integer.
  destruct s as [ | c t ]; [ discriminate | ].
  destruct (c =? 45)%N.
  - destruct t as [ | d u ]; [ discriminate | ].
    destruct (d =? 48)%N.
    + intros H. injection H as <- <-. cbn [List.length]. lia.
    + destruct (Decoder.is_digit d); [ | discriminate ].
      destruct (Decoder.span_digits u) as [ ds rest ] eqn:Hspan.
      intros H. injection H as <- <-.
      apply span_digits_length in Hspan. cbn [List.length]. lia.
  - destruct (c =? 48)%N.
    + intros H. injection H as <- <-. cbn [List.length]. lia.
    + destruct (Decoder.is_digit c); [ | discriminate ].
      destruct (Decoder.span_digits t) as [ ds rest ] eqn:Hspan.
      intros H. injection H as <- <-.
      apply span_digits_length in Hspan. cbn [List.length]. lia.
Qed.

Lemma match_frac_length (s frac r : pystr) :
  Decoder.match_frac s = (frac, r) -> (List.length r <= List.length s)%nat.
Proof.
  unfold Decoder.match_frac.
  destruct s as [ | c t ]; [ intros H; now injection H as <- <- | ].
  destruct (c =? 46)%N; [ | intros H; now injection H as <- <- ].
  destruct (Decoder.span_digits t) as [ ds rest ] eqn:Hspan.
  apply span_digits_length in Hspan.
  destruct ds; intros H; injection H as <- <-; cbn [List.length] in *; lia.
Qed.

Lemma match_exp_length (s exp r : pystr) :
  Decoder.match_exp s = (exp, r) -> (List.length r <= List.length s)%nat.
Proof.
  unfold Decoder.match_exp.
  destruct s as [ | c t ]; [ intros H; now injection H as <- <- | ].
  destruct ((c =? 101) || (c =? 69))%N; [ | intros H; now injection H as <- <- ].
  destruct t as [ | c' r' ].
  - cbn [Decoder.span_digits]. intros H. now injection H as <- <-.
  - destruct ((c' =? 45) || (c' =? 43))%N.
    + destruct (Decoder.span_digits r') as [ ds rest ] eqn:Hspan.
      apply span_digits_length in Hspan.
      destruct ds; intros H; injection H as <- <-; cbn [List.length] in *; lia.
    + destruct (Decoder.span_digits (c' :: r')) as [ ds rest ] eqn:Hspan.
      apply span_digits_length in Hspan.
      destruct ds; intros H; injection H as <- <-; cbn [List.length] in *; lia.
Qed.

Section FuelEnough.

Variable float_of_token : pystr -> pyfloat.

Lemma scan_number_length s v r :
  Decoder.scan_number float_of_token s = Some (v, r) ->
  (List.length r < List.length s)%nat.
Proof.
  unfold Decoder.scan_number.
  destruct (Decoder.match_integer s) as [ [ integer r0 ] | ] eqn:Hint;
    [ | discriminate ].
  destruct (Decoder.match_frac r0) as [ frac r1 ] eqn:Hfrac.
  destruct (Decoder.match_exp r1) as [ exp r2 ] eqn:Hexp.
  apply match_integer_length in Hint.
  apply match_frac_length in Hfrac. apply match_exp_length in Hexp.
  destruct frac, exp; intros H; injection H as <- <-; lia.
Qed.

Lemma scan_constant_length s v r :
  Decoder.scan_constant s = Some (v, r) -> (List.length r < List.length s)%nat.
Proof.
  unfold Decoder.scan_constant.
  repeat match goal with
         | |- context [match Decoder.strip_prefix ?p ?x with _ => _ end] =>
             let E := fresh "E" in
             destruct (Decoder.strip_prefix p x) eqn:E;
             [ apply strip_prefix_length in E; cbn [List.length] in E | ]
         end; intros H; try discriminate; injection H as <- <-; cbn in *; lia.
Qed.

(** Every successful call reads at least one character. *)
Lemma scan_consumes fuel :
  (forall s v r,
      Decoder.scan_once float_of_token fuel s = Some (v, r) ->
      (List.length r < List.length s)%nat)
  /\ (forall s vs r,
        Decoder.array_items float_of_token fuel s = Some (vs, r) ->
        (List.length r < List.length s)%nat)
  /\ (forall s ps r,
        Decoder.object_items float_of_token fuel s = Some (ps, r) ->
        (List.length r < List.length s)%nat).
Proof.
  induction fuel as [ | fuel (IHscan & IHarray & IHobject) ].
  - repeat split; discriminate.
  - split; [ | split ].
    + intros s v r. rewrite scan_once_step.
      destruct s as [ | c t ]; [ discriminate | ]. cbn [List.length].
      destruct (c =? 34)%N.
      { destruct (Decoder.scanstring t) as [ [ str rest ] | ] eqn:Hstr;
          [ | discriminate ].
        intros H. injection H as <- <-.
        pose proof (scanstring_length _ _ _ _ (le_n _) Hstr). lia. }
      destruct (c =? 123)%N.
      { pose proof (skip_ws_length t) as Hws.
        destruct (Decoder.skip_ws t) as [ | c' r' ]; [ discriminate | ].
        cbn [List.length] in Hws.
        destruct (c' =? 125)%N; [ intros H; injection H as <- <-; lia | ].
        destruct (c' =? 34)%N; [ | discriminate ].
        destruct (Decoder.object_items float_of_token fuel r')
          as [ [ pairs rest ] | ] eqn:Hitems; [ | discriminate ].
        intros H. injection H as <- <-.
        pose proof (IHobject _ _ _ Hitems). lia. }
      destruct (c =? 91)%N.
      { pose proof (skip_ws_length t) as Hws.
        destruct (Decoder.skip_ws t) as [ | c' r' ]; [ discriminate | ].
        cbn [List.length] in Hws.
        destruct (c' =? 93)%N; [ intros H; injection H as <- <-; lia | ].
        destruct (Decoder.array_items float_of_token fuel (c' :: r'))
          as [ [ values rest ] | ] eqn:Hitems; [ | discriminate ].
        intros H. injection H as <- <-.
        pose proof (IHarray _ _ _ Hitems) as Hlen. cbn [List.length] in Hlen. lia. }
      destruct (Decoder.strip_prefix (lit "null") (c :: t)) eqn:E1.
      { intros H. injection H as <- <-. apply strip_prefix_length in E1.
        cbn in E1. lia. }
      destruct (Decoder.strip_prefix (lit "true") (c :: t)) eqn:E2.
      { intros H. injection H as <- <-. apply strip_prefix_length in E2.
        cbn in E2. lia. }
      destruct (Decoder.strip_prefix (lit "false") (c :: t)) eqn:E3.
      { intros H. injection H as <- <-. apply strip_prefix_length in E3.
        cbn in E3. lia. }
      destruct (Decoder.scan_number float_of_token (c :: t))
        as [ [ v' r' ] | ] eqn:Hnumber.
      { intros H. injection H as <- <-.
        apply scan_number_length in Hnumber. cbn [List.length] in Hnumber. lia. }
      intros H. apply scan_constant_length in H. cbn [List.length] in H. lia.
    + intros s vs r. rewrite array_items_step.
      destruct (Decoder.scan_once float_of_token fuel s)
        as [ [ value r0 ] | ] eqn:Hvalue; [ | discriminate ].
      pose proof (IHscan _ _ _ Hvalue) as Hlen.
      pose proof (skip_ws_length r0) as Hws.
      destruct (Decoder.skip_ws r0) as [ | c r' ]; [ discriminate | ].
      cbn [List.length] in Hws.
      destruct (c =? 93)%N; [ intros H; injection H as <- <-; lia | ].
      destruct (c =? 44)%N; [ | discriminate ].
      destruct (Decoder.array_items float_of_token fuel (Decoder.skip_ws r'))
        as [ [ values rest ] | ] eqn:Hrest; [ | discriminate ].
      intros H. injection H as <- <-.
      pose proof (IHarray _ _ _ Hrest). pose proof (skip_ws_length r'). lia.
    + intros s ps r. rewrite object_items_step.
      destruct (Decoder.scanstring s) as [ [ key r0 ] | ] eqn:Hkey;
        [ | discriminate ].
      pose proof (scanstring_length _ _ _ _ (le_n _) Hkey) as Hlen.
      pose proof (skip_ws_length r0) as Hws.
      destruct (Decoder.skip_ws r0) as [ | c r1 ]; [ discriminate | ].
      cbn [List.length] in Hws.
      destruct (c =? 58)%N; [ | discriminate ].
      destruct (Decoder.scan_once float_of_token fuel (Decoder.skip_ws r1))
        as [ [ value r2 ] | ] eqn:Hvalue; [ | discriminate ].
      pose proof (IHscan _ _ _ Hvalue) as Hlen2.
      pose proof (skip_ws_length r1) as Hws1.
      pose proof (skip_ws_length r2) as Hws2.
      destruct (Decoder.skip_ws r2) as [ | c' r3 ]; [ discriminate | ].
      cbn [List.length] in Hws2.
      destruct (c' =? 125)%N; [ intros H; injection H as <- <-; lia | ].
      destruct (c' =? 44)%N; [ | discriminate ].
      pose proof (skip_ws_length r3) as Hws3.
      destruct (Decoder.skip_ws r3) as [ | q r4 ]; [ discriminate | ].
      cbn [List.length] in Hws3.
      destruct (q =? 34)%N; [ | discriminate ].
      destruct (Decoder.object_items float_of_token fuel r4)
        as [ [ pairs rest ] | ] eqn:Hrest; [ | discriminate ].
      intros H. injection H as <- <-.
      pose proof (IHobject _ _ _ Hrest). lia.
Qed.

End FuelEnough.

Section FuelIndependent.

Variable float_of_token : pystr -> pyfloat.

(** What a call has read with some fuel it reads with any fuel that is
    at least the number of characters read. *)
Lemma scan_fuel_enough fuel :
  (forall s v r,
      Decoder.scan_once float_of_token fuel s = Some (v, r) ->
      forall m, (List.length s - List.length r <= m)%nat ->
        Decoder.scan_once float_of_token m s = Some (v, r))
  /\ (forall s vs r,
        Decoder.array_items float_of_token fuel s = Some (vs, r) ->
        forall m, (List.length s - List.length r <= m)%nat ->
          Decoder.array_items float_of_token m s = Some (vs, r))
  /\ (forall s ps r,
        Decoder.object_items float_of_token fuel s = Some (ps, r) ->
        forall m, (List.length s - List.length r <= m)%nat ->
          Decoder.object_items float_of_token m s = Some (ps, r)).
Proof.
  induction fuel as [ | fuel (IHscan & IHarray & IHobject) ].
  - repeat split; discriminate.
  - pose proof (scan_consumes float_of_token fuel) as (Cscan & Carray & Cobject).
    split; [ | split ].
    + intros s v r H m Hm.
      pose proof (proj1 (scan_consumes float_of_token (S fuel)) _ _ _ H) as Hlen.
      destruct m as [ | m ]; [ lia | ].
      rewrite scan_once_step in H. rewrite scan_once_step.
      destruct s as [ | c t ]; [ discriminate | ]. cbn [List.length] in *.
      destruct (c =? 34)%N; [ exact H | ].
      destruct (c =? 123)%N.
      { pose proof (skip_ws_length t) as Hws.
        destruct (Decoder.skip_ws t) as [ | c' r' ]; [ discriminate | ].
        cbn [List.length] in Hws.
        destruct (c' =? 125)%N; [ exact H | ].
        destruct (c' =? 34)%N; [ | discriminate ].
        destruct (Decoder.object_items float_of_token fuel r')
          as [ [ pairs rest ] | ] eqn:Hitems; [ | discriminate ].
        injection H as <- <-.
        rewrite (IHobject _ _ _ Hitems m) by lia. reflexivity. }
      destruct (c =? 91)%N.
      { pose proof (skip_ws_length t) as Hws.
        destruct (Decoder.skip_ws t) as [ | c' r' ]; [ discriminate | ].
        cbn [List.length] in Hws.
        destruct (c' =? 93)%N; [ exact H | ].
        destruct (Decoder.array_items float_of_token fuel (c' :: r'))
          as [ [ values rest ] | ] eqn:Hitems; [ | discriminate ].
        injection H as <- <-.
        rewrite (IHarray _ _ _ Hitems m) by (cbn [List.length]; lia).
        reflexivity. }
      exact H.
    + intros s vs r H m Hm.
      pose proof (proj1 (proj2 (scan_consumes float_of_token (S fuel))) _ _ _ H)
        as Hlen.
      destruct m as [ | m ]; [ lia | ].
      rewrite array_items_step in H. rewrite array_items_step.
      destruct (Decoder.scan_once float_of_token fuel s)
        as [ [ value r0 ] | ] eqn:Hvalue; [ | discriminate ].
      pose proof (Cscan _ _ _ Hvalue) as Hlen0.
      pose proof (skip_ws_length r0) as Hws.
      destruct (Decoder.skip_ws r0) as [ | c r' ] eqn:Hskip; [ discriminate | ].
      cbn [List.length] in Hws.
      destruct (c =? 93)%N eqn:H93.
      { injection H as <- <-.
        rewrite (IHscan _ _ _ Hvalue m) by lia.
        now rewrite Hskip, H93. }
      destruct (c =? 44)%N eqn:H44; [ | discriminate ].
      destruct (Decoder.array_items float_of_token fuel (Decoder.skip_ws r'))
        as [ [ values rest ] | ] eqn:Hrest; [ | discriminate ].
      injection H as <- <-.
      pose proof (Carray _ _ _ Hrest) as Hlen1.
      pose proof (skip_ws_length r') as Hws1.
      rewrite (IHscan _ _ _ Hvalue m) by lia.
      rewrite Hskip, H93, H44.
      rewrite (IHarray _ _ _ Hrest m) by lia. reflexivity.
    + intros s ps r H m Hm.
      pose proof (proj2 (proj2 (scan_consumes float_of_token (S fuel))) _ _ _ H)
        as Hlen.
      destruct m as [ | m ]; [ lia | ].
      rewrite object_items_step in H. rewrite object_items_step.
      destruct (Decoder.scanstring s) as [ [ key r0 ] | ] eqn:Hkey;
        [ | discriminate ].
      pose proof (scanstring_length _ _ _ _ (le_n _) Hkey) as Hlen0.
      pose proof (skip_ws_length r0) as Hws.
      destruct (Decoder.skip_ws r0) as [ | c r1 ]; [ discriminate | ].
      cbn [List.length] in Hws.
      destruct (c =? 58)%N; [ | discriminate ].
      destruct (Decoder.scan_once float_of_token fuel (Decoder.skip_ws r1))
        as [ [ value r2 ] | ] eqn:Hvalue; [ | discriminate ].
      pose proof (Cscan _ _ _ Hvalue) as Hlen2.
      pose proof (skip_ws_length r1) as Hws1.
      pose proof (skip_ws_length r2) as Hws2.
      destruct (Decoder.skip_ws r2) as [ | c' r3 ] eqn:Hskip2; [ discriminate | ].
      cbn [List.length] in Hws2.
      destruct (c' =? 125)%N eqn:H125.
      { injection H as <- <-.
        rewrite (IHscan _ _ _ Hvalue m) by lia.
        now rewrite Hskip2, H125. }
      destruct (c' =? 44)%N eqn:H44; [ | discriminate ].
      pose proof (skip_ws_length r3) as Hws3.
      destruct (Decoder.skip_ws r3) as [ | q r4 ] eqn:Hskip3; [ discriminate | ].
      cbn [List.length] in Hws3.
      destruct (q =? 34)%N eqn:H34; [ | discriminate ].
      destruct (Decoder.object_items float_of_token fuel r4)
        as [ [ pairs rest ] | ] eqn:Hrest; [ | discriminate ].
      injection H as <- <-.
      pose proof (Cobject _ _ _ Hrest) as Hlen4.
      rewrite (IHscan _ _ _ Hvalue m) by lia.
      rewrite Hskip2, H125, H44, Hskip3, H34.
      rewrite (IHobject _ _ _ Hrest m) by lia. reflexivity.
Qed.

End FuelIndependent.

(** The fuel of [loads] is no limit of its own: [loads] returns a value
    exactly when the scanner, with some amount of fuel, reads that value
    from the text with only blanks before and after it. *)
Lemma loads_fuel_enough (float_of_token : pystr -> pyfloat) (s : pystr)
    (v : json) :
  Decoder.loads float_of_token s = Some v
  <-> exists fuel rest,
        Decoder.scan_once float_of_token fuel (Decoder.skip_ws s) = Some (v, rest)
        /\ Decoder.skip_ws rest = [].
Proof.
  split.
  - destruct s as [ | c t ]; [ discriminate | ].
    rewrite loads_scan.
    destruct (Decoder.scan_once float_of_token (S (List.length (c :: t)))
                (Decoder.skip_ws (c :: t))) as [ [ value rest ] | ] eqn:Hscan;
      [ | discriminate ].
    destruct (Decoder.skip_ws rest) eqn:Hrest; [ | discriminate ].
    intros H. injection H as <-. eauto.
  - intros (fuel & rest & Hscan & Hrest).
    destruct s as [ | c t ].
    + destruct fuel; discriminate.
    + rewrite loads_scan.
      pose proof (skip_ws_length (c :: t)) as Hws.
      rewrite (proj1 (scan_fuel_enough float_of_token fuel) _ _ _ Hscan)
        by lia.
      now rewrite Hrest.
Qed.

(** ** The UTF-8 codec *)

Lemma utf8_decode_char (c : N) (data more : list N) :
  Utf8.encode_char c = Some data ->
  Utf8.decode (data ++ more) =
    match Utf8.decode more with
    | Some text => Some (c :: text)
    | None => None
    end.
Proof.
  unfold Utf8.encode_char, Utf8.is_surrogate.
  destruct (N.ltb_spec c 128).
  { intros Hdata. replace data with [c] by congruence.
    cbn [List.app Utf8.decode].
    now replace (c <? 128)%N with true by (symmetry; apply N.ltb_lt; lia). }
  destruct (N.ltb_spec c 2048).
  { intros Hdata.
    replace data with [192 + c / 64; 128 + c mod 64]%N by congruence.
    cbn [List.app Utf8.decode].
    unfold Utf8.is_continuation. settle_comparisons.
    repeat match goal with
      | |- context [(?a =? ?b)%N] => destruct (N.eqb_spec a b)
      end; settle_comparisons; cbn [andb negb];
    (destruct (Utf8.decode more); [ | reflexivity ]);
    do 2 f_equal; euclid. }
  destruct (N.leb_spec 55296 c); destruct (N.leb_spec c 57343);
    cbn [andb]; try discriminate.
  - destruct (N.ltb_spec c 65536).
    + intros Hdata.
      replace data
        with [224 + c / 4096; 128 + (c / 64) mod 64; 128 + c mod 64]%N
        by congruence.
      cbn [List.app Utf8.decode].
      unfold Utf8.is_continuation. settle_comparisons.
    repeat match goal with
      | |- context [(?a =? ?b)%N] => destruct (N.eqb_spec a b)
      end; settle_comparisons; cbn [andb negb];
      (destruct (Utf8.decode more); [ | reflexivity ]);
      do 2 f_equal; euclid.
    + destruct (N.ltb_spec c 1114112); [ | discriminate ].
      intros Hdata.
      replace data
        with [240 + c / 262144; 128 + (c / 4096) mod 64;
              128 + (c / 64) mod 64; 128 + c mod 64]%N
        by congruence.
      cbn [List.app Utf8.decode].
      unfold Utf8.is_continuation. settle_comparisons.
    repeat match goal with
      | |- context [(?a =? ?b)%N] => destruct (N.eqb_spec a b)
      end; settle_comparisons; cbn [andb negb];
      (destruct (Utf8.decode more); [ | reflexivity ]);
      do 2 f_equal; euclid.
  - destruct (N.ltb_spec c 65536); [ | lia ].
    intros Hdata.
    replace data
      with [224 + c / 4096; 128 + (c / 64) mod 64; 128 + c mod 64]%N
      by congruence.
    cbn [List.app Utf8.decode].
    unfold Utf8.is_continuation. settle_comparisons.
    repeat match goal with
      | |- context [(?a =? ?b)%N] => destruct (N.eqb_spec a b)
      end; settle_comparisons; cbn [andb negb];
    (destruct (Utf8.decode more); [ | reflexivity ]);
    do 2 f_equal; euclid.
  - lia.
Qed.

Lemma utf8_decode_encode (text data : list N) :
  Utf8.encode text = Some data -> Utf8.decode data = Some text.
Proof.
  revert data. induction text as [ | c rest IH ]; intros data.
  - intros H. now injection H as <-.
  - cbn [Utf8.encode].
    destruct (Utf8.encode_char c) as [ bytes | ] eqn:Hc; [ | discriminate ].
    destruct (Utf8.encode rest) as [ more | ]; [ | discriminate ].
    intros Hdata. injection Hdata as <-.
    now rewrite (utf8_decode_char c bytes more Hc), (IH more eq_refl).
Qed.

Lemma utf8_encode_total (text : pystr) :
  encodable text = true -> exists data, Utf8.encode text = Some data.
Proof.
  induction text as [ | c rest IH ]; [ now exists [] | ].
  cbn [encodable List.forallb]. intros Hall.
  apply andb_true_iff in Hall. destruct Hall as [ Hc Hrest ].
  apply andb_true_iff in Hc. destruct Hc as [ Hs Hmax ].
  destruct (IH Hrest) as [ more Hmore ].
  cbn [Utf8.encode]. rewrite Hmore. unfold Utf8.encode_char.
  apply negb_true_iff in Hs. rewrite Hs, Hmax.
  destruct (c <? 128)%N; [ now eexists | ].
  destruct (c <? 2048)%N; [ now eexists | ].
  destruct (c <? 65536)%N; now eexists.
Qed.

Lemma utf8_encode_refuses (text : pystr) :
  encodable text = false -> Utf8.encode text = None.
Proof.
  induction text as [ | c rest IH ]; [ discriminate | ].
  cbn [encodable List.forallb Utf8.encode]. intros H.
  apply andb_false_iff in H. destruct H as [ Hc | Hrest ].
  - assert (Hnone : Utf8.encode_char c = None).
    { unfold Utf8.encode_char. apply andb_false_iff in Hc.
      destruct Hc as [ Hs | Hmax ].
      - apply negb_false_iff in Hs. rewrite Hs.
        unfold Utf8.is_surrogate in Hs. apply andb_true_iff in Hs.
        destruct Hs as [ Hlo Hhi ]. apply N.leb_le in Hlo.
        replace (c <? 128)%N with false by (symmetry; apply N.ltb_ge; lia).
        now replace (c <? 2048)%N with false by (symmetry; apply N.ltb_ge; lia).
      - apply N.ltb_ge in Hmax. rewrite (proj2 (N.ltb_ge c 1114112) Hmax).
        replace (c <? 128)%N with false by (symmetry; apply N.ltb_ge; lia).
        replace (c <? 2048)%N with false by (symmetry; apply N.ltb_ge; lia).
        replace (c <? 65536)%N with false by (symmetry; apply N.ltb_ge; lia).
        now destruct (Utf8.is_surrogate c). }
    now rewrite Hnone.
  - rewrite (IH Hrest). now destruct (Utf8.encode_char c).
Qed.

(** ** Floats, from their [repr] *)

Lemma ascii_digits_digit_chars (ds : pystr) : ascii_digits ds -> digit_chars ds.
Proof.
  intros H. induction H as [ | c r Hc _ IH ]; constructor; [ | exact IH ].
  unfold Decoder.is_digit. apply andb_true_iff. split; apply N.leb_le; lia.
Qed.

Lemma span_digits_end (ds rest : pystr) :
  digit_chars ds -> digits_end rest ->
  Decoder.span_digits (ds ++ rest) = (ds, rest).
Proof.
  intros Hds Hrest. induction Hds as [ | c ds Hc _ IH ].
  - destruct rest as [ | c r ]; [ reflexivity | ].
    cbn in *. now rewrite Hrest.
  - cbn. now rewrite Hc, IH.
Qed.

Lemma number_end_digits_end (rest : pystr) :
  number_end rest = true -> digits_end rest.
Proof.
  destruct rest as [ | c r ]; [ exact (fun _ => I) | ]. cbn.
  destruct (Decoder.is_digit c); [ discriminate | reflexivity ].
Qed.

(** The exponent of a number, read by [match_exp]. *)
Lemma match_exp_exponent (exp rest : pystr) :
  exponent_part exp -> number_end rest = true ->
  Decoder.match_exp (exp ++ rest) = (exp, rest).
Proof.
  intros [ -> | (letter & sign & d & ds & -> & Hletter & Hsign & Hds) ] Hrest.
  - now apply match_exp_none.
  - apply ascii_digits_digit_chars in Hds.
    pose proof (span_digits_end (d :: ds) rest Hds (number_end_digits_end _ Hrest))
      as Hspan.
    assert (Hd : Decoder.is_digit d = true) by now inversion Hds.
    assert (Hsigned : forall c, Decoder.is_digit c = true ->
                                ((c =? 45) || (c =? 43))%N = false).
    { intros c Hc. unfold Decoder.is_digit in Hc.
      apply andb_true_iff in Hc. destruct Hc as [ Hlo _ ]. apply N.leb_le in Hlo.
      apply orb_false_iff. split; apply N.eqb_neq; lia. }
    replace ((letter :: sign ++ d :: ds) ++ rest)
      with (letter :: sign ++ (d :: ds) ++ rest)
      by (cbn [List.app]; now rewrite <- List.app_assoc).
    unfold Decoder.match_exp.
    replace ((letter =? 101) || (letter =? 69))%N with true
      by (destruct Hletter as [ -> | -> ]; reflexivity).
    destruct Hsign as [ -> | [ -> | -> ] ]; cbn [List.app].
    + rewrite (Hsigned d Hd).
      change (d :: ds ++ rest) with ((d :: ds) ++ rest). now rewrite Hspan.
    + cbn [N.eqb Pos.eqb orb].
      change (d :: ds ++ rest) with ((d :: ds) ++ rest). now rewrite Hspan.
    + cbn [N.eqb Pos.eqb orb].
      change (d :: ds ++ rest) with ((d :: ds) ++ rest). now rewrite Hspan.
Qed.

(** What follows the fraction of a number: its exponent, or the end. *)
Lemma exponent_digits_end (exp rest : pystr) :
  exponent_part exp -> number_end rest = true -> digits_end (exp ++ rest).
Proof.
  intros [ -> | (letter & sign & d & ds & -> & Hletter & _) ] Hrest.
  - cbn [List.app]. now apply number_end_digits_end.
  - cbn. destruct Hletter as [ -> | -> ]; reflexivity.
Qed.

Lemma exponent_no_point (exp rest : pystr) :
  exponent_part exp -> number_end rest = true ->
  Decoder.match_frac (exp ++ rest) = ([], exp ++ rest).
Proof.
  intros [ -> | (letter & sign & d & ds & -> & Hletter & _) ] Hrest.
  - cbn [List.app]. now apply match_frac_none.
  - cbn. destruct Hletter as [ -> | -> ]; reflexivity.
Qed.

(** The fraction of a number, read by [match_frac]. *)
Lemma match_frac_fraction (frac exp rest : pystr) :
  fraction_part frac -> exponent_part exp -> number_end rest = true ->
  Decoder.match_frac (frac ++ exp ++ rest) = (frac, exp ++ rest).
Proof.
  intros [ -> | (d & ds & -> & Hds) ] Hexp Hrest.
  - cbn [List.app]. now apply exponent_no_point.
  - apply ascii_digits_digit_chars in Hds.
    pose proof (span_digits_end (d :: ds) (exp ++ rest) Hds
                  (exponent_digits_end _ _ Hexp Hrest)) as Hspan.
    unfold Decoder.match_frac. cbn [List.app N.eqb Pos.eqb].
    change (d :: ds ++ exp ++ rest) with ((d :: ds) ++ exp ++ rest).
    now rewrite Hspan.
Qed.

(** The integer part of a number that goes on with a fraction or an
    exponent, read by [match_integer]. *)
Lemma match_integer_part (sign int tail : pystr) :
  (sign = [] \/ sign = [45%N]) -> integer_part int -> digits_end tail ->
  Decoder.match_integer (sign ++ int ++ tail) = Some (sign ++ int, tail).
Proof.
  intros Hsign Hint Htail.
  assert (Hbody : forall sgn,
             Decoder.match_integer (sgn ++ int ++ tail) =
               match int ++ tail with
               | c :: r =>
                   if (c =? 48)%N then Some (sgn ++ [48%N], r)
                   else if Decoder.is_digit c then
                     let (ds, rest) := Decoder.span_digits r in
                     Some (sgn ++ c :: ds, rest)
                   else None
               | [] => None
               end -> 
             Decoder.match_integer (sgn ++ int ++ tail) = Some (sgn ++ int, tail)).
  { intros sgn ->.
    destruct Hint as [ -> | (d & ds & -> & Hd & Hds) ]; cbn [List.app].
    - reflexivity.
    - replace (d =? 48)%N with false by (symmetry; apply N.eqb_neq; lia).
      replace (Decoder.is_digit d) with true
        by (symmetry; apply andb_true_iff; split; apply N.leb_le; lia).
      now rewrite (span_digits_end ds tail (ascii_digits_digit_chars _ Hds) Htail). }
  destruct Hsign as [ -> | -> ]; apply Hbody.
  - unfold Decoder.match_integer. cbn [List.app].
    destruct Hint as [ -> | (d & ds & -> & Hd & Hds) ]; cbn [List.app].
    + reflexivity.
    + now replace (d =? 45)%N with false by (symmetry; apply N.eqb_neq; lia).
  - reflexivity.
Qed.

Lemma float_tail_digits_end (frac exp rest : pystr) :
  fraction_part frac -> exponent_part exp -> number_end rest = true ->
  frac <> [] \/ exp <> [] -> digits_end (frac ++ exp ++ rest).
Proof.
  intros [ -> | (d & ds & -> & _) ] Hexp Hrest Hsome.
  - cbn [List.app]. now apply exponent_digits_end.
  - reflexivity.
Qed.

(** [scan_number] reads a number with a fraction or an exponent as the
    float of its whole text. *)
Lemma scan_number_float_token (float_of_token : pystr -> pyfloat) (t rest : pystr) :
  float_token t -> number_end rest = true ->
  Decoder.scan_number float_of_token (t ++ rest)
  = Some (JFloat (float_of_token t), rest).
Proof.
  intros (sign & int & frac & exp & -> & Hsign & Hint & Hfrac & Hexp & Hsome) Hrest.
  unfold Decoder.scan_number.
  replace ((sign ++ int ++ frac ++ exp) ++ rest)
    with (sign ++ int ++ frac ++ exp ++ rest)
    by now rewrite <- !List.app_assoc.
  rewrite (match_integer_part sign int (frac ++ exp ++ rest) Hsign Hint
             (float_tail_digits_end _ _ _ Hfrac Hexp Hrest Hsome)).
  rewrite (match_frac_fraction _ _ _ Hfrac Hexp Hrest).
  rewrite (match_exp_exponent _ _ Hexp Hrest).
  rewrite <- List.app_assoc.
  destruct frac as [ | c frac' ]; [ | reflexivity ].
  destruct exp as [ | c exp' ]; [ | reflexivity ].
  now destruct Hsome.
Qed.

Lemma python_float_reads_back (rt : Runtime) (f : pyfloat) :
  python_float rt f -> float_reads_back (repr_float rt) (parse_float rt) f.
Proof.
  destruct f as [ | neg | neg m e ]; try exact (fun _ => I).
  intros [ Htoken Hback ] rest Hrest.
  rewrite (scan_number_float_token _ _ _ Htoken Hrest). now rewrite Hback.
Qed.

Lemma python_floats_read_back (rt : Runtime) (v : json) :
  python_floats rt v -> floats_read_back (repr_float rt) (parse_float rt) v.
Proof.
  unfold python_floats.
  induction v as [ | b | z | f | s | items IH | entries IH ] using json_nested_ind;
    try exact (fun _ => I).
  - apply python_float_reads_back.
  - cbn [json_all floats_read_back].
    induction IH as [ | x r Hx _ IHr ]; [ exact (fun _ => I) | ].
    intros [ H1 H2 ]. split; [ now apply Hx | now apply IHr ].
  - cbn [json_all floats_read_back].
    induction IH as [ | [ k x ] r Hx _ IHr ]; [ exact (fun _ => I) | ].
    cbn [snd] in Hx.
    intros [ [ _ H1 ] H2 ]. split; [ now apply Hx | now apply IHr ].
Qed.

Lemma python_values_valid (rt : Runtime) (v : json) :
  distinct_keys v -> python_floats rt v ->
  valid (repr_float rt) (parse_float rt) v.
Proof.
  intros Hkeys Hfloats. apply valid_split. split; [ exact Hkeys | ].
  now apply python_floats_read_back.
Qed.

(** ** The text of a bundle, through the UTF-8 encoder *)

Lemma encodable_app (a b : pystr) :
  encodable (a ++ b) = encodable a && encodable b.
Proof. apply List.forallb_app. Qed.

Lemma ascii_encodable (s : pystr) :
  List.Forall (fun c => (c < 128)%N) s -> encodable s = true.
Proof.
  intros H. induction H as [ | c r Hc _ IH ]; [ reflexivity | ].
  cbn [encodable List.forallb]. fold (encodable r). rewrite IH.
  unfold Utf8.is_surrogate.
  replace (55296 <=? c)%N with false by (symmetry; apply N.leb_gt; lia).
  now replace (c <? 1114112)%N with true by (symmetry; apply N.ltb_lt; lia).
Qed.

Lemma escape_char_encodable (c : N) :
  encodable [c] = true -> encodable (Encoder.escape_char c) = true.
Proof.
  intros Hc. unfold Encoder.escape_char.
  repeat match goal with
    | |- encodable (if ?b then _ else _) = true =>
        destruct b eqn:?; [ try reflexivity | ]
    end; [ | exact Hc ].
  apply ascii_encodable. cbn [lit List.app].
  match goal with H : (c <? 32)%N = true |- _ => apply N.ltb_lt in H end.
  assert (Hhex : forall n, (n < 16)%N -> (Encoder.hex_digit n < 128)%N).
  { intros n Hn. unfold Encoder.hex_digit. destruct (n <? 10)%N; lia. }
  repeat (constructor; [ first [ apply Hhex; euclid | cbv; reflexivity ] | ]).
  constructor.
Qed.

Lemma encode_basestring_encodable (s : pystr) :
  encodable s = true -> encodable (Encoder.encode_basestring s) = true.
Proof.
  intros Hs. unfold Encoder.encode_basestring.
  rewrite !encodable_app. cbn [andb].
  replace (encodable [34%N]) with true by reflexivity. rewrite andb_true_r.
  cbn [andb]. induction s as [ | c r IH ]; [ reflexivity | ].
  cbn [List.flat_map]. rewrite encodable_app.
  change (c :: r) with ([c] ++ r) in Hs. rewrite encodable_app in Hs.
  apply andb_true_iff in Hs. destruct Hs as [ Hc Hr ].
  now rewrite (escape_char_encodable c Hc), (IH Hr).
Qed.

Lemma digit_chars_encodable (ds : pystr) : digit_chars ds -> encodable ds = true.
Proof.
  intros H. apply ascii_encodable.
  induction H as [ | c r Hc _ IH ]; constructor; [ | exact IH ].
  unfold Decoder.is_digit in Hc. apply andb_true_iff in Hc.
  destruct Hc as [ _ Hhi ]. apply N.leb_le in Hhi. lia.
Qed.

Lemma intstr_encodable (z : Z) : encodable (Encoder.intstr z) = true.
Proof.
  unfold Encoder.intstr. destruct (Z.to_int z) as [ d | d ].
  - apply digit_chars_encodable, digits_are_digits.
  - change (45%N :: Encoder.digits d) with ([45%N] ++ Encoder.digits d).
    rewrite encodable_app.
    now rewrite (digit_chars_encodable _ (digits_are_digits d)).
Qed.

Lemma newline_indent_encodable (level : nat) :
  encodable (Encoder.newline_indent level) = true.
Proof.
  unfold Encoder.newline_indent. apply ascii_encodable.
  constructor; [ lia | ].
  induction (2 * level)%nat; cbn [List.repeat]; constructor; [ lia | assumption ].
Qed.

Lemma ascii_digits_encodable (ds : pystr) : ascii_digits ds -> encodable ds = true.
Proof. intros H. now apply digit_chars_encodable, ascii_digits_digit_chars. Qed.

Lemma float_token_encodable (t : pystr) : float_token t -> encodable t = true.
Proof.
  intros (sign & int & frac & exp & -> & Hsign & Hint & Hfrac & Hexp & _).
  rewrite !encodable_app.
  assert (H1 : encodable sign = true)
    by (destruct Hsign as [ -> | -> ]; reflexivity).
  assert (H2 : encodable int = true).
  { destruct Hint as [ -> | (d & ds & -> & Hd & Hds) ]; [ reflexivity | ].
    apply ascii_digits_encodable. constructor; [ lia | exact Hds ]. }
  assert (H3 : encodable frac = true).
  { destruct Hfrac as [ -> | (d & ds & -> & Hds) ]; [ reflexivity | ].
    change (46%N :: d :: ds) with ([46%N] ++ d :: ds). rewrite encodable_app.
    now rewrite (ascii_digits_encodable _ Hds). }
  assert (H4 : encodable exp = true).
  { destruct Hexp as [ -> | (letter & sgn & d & ds & -> & Hletter & Hsgn & Hds) ];
      [ reflexivity | ].
    change (letter :: sgn ++ d :: ds) with ([letter] ++ sgn ++ d :: ds).
    rewrite !encodable_app, (ascii_digits_encodable _ Hds).
    destruct Hletter as [ -> | -> ]; destruct Hsgn as [ -> | [ -> | -> ] ];
      reflexivity. }
  now rewrite H1, H2, H3, H4.
Qed.

Lemma join_encodable (sep : pystr) (parts : list pystr) :
  encodable sep = true ->
  List.Forall (fun part => encodable part = true) parts ->
  encodable (Encoder.join sep parts) = true.
Proof.
  intros Hsep H. induction H as [ | part rest Hpart _ IH ]; [ reflexivity | ].
  destruct rest as [ | next rest' ]; [ exact Hpart | ].
  change (Encoder.join sep (part :: next :: rest'))
    with (part ++ sep ++ Encoder.join sep (next :: rest')).
  now rewrite !encodable_app, Hpart, Hsep, IH.
Qed.

Lemma json_all_list Pf Ps items :
  json_all Pf Ps (JList items) <-> List.Forall (json_all Pf Ps) items.
Proof.
  cbn [json_all]. induction items as [ | x r IH ].
  - split; auto.
  - split.
    + intros [ Hx Hr ]. constructor; [ exact Hx | now apply IH ].
    + intros H. inversion H; subst. split; [ assumption | now apply IH ].
Qed.

Lemma json_all_dict Pf Ps entries :
  json_all Pf Ps (JDict entries) <->
  List.Forall (fun kv => Ps (fst kv) /\ json_all Pf Ps (snd kv)) entries.
Proof.
  cbn [json_all]. induction entries as [ | [ k x ] r IH ].
  - split; auto.
  - split.
    + intros [ Hx Hr ]. constructor; [ exact Hx | now apply IH ].
    + intros H. inversion H; subst. split; [ assumption | now apply IH ].
Qed.

(** The text of a value whose strings hold no surrogate holds none. *)
Lemma iterencode_encodable (rt : Runtime) (v : json) :
  python_floats rt v -> encodable_strings v ->
  forall level, encodable (Encoder.iterencode (repr_float rt) level v) = true.
Proof.
  unfold python_floats, encodable_strings.
  induction v as [ | b | z | f | s | items IH | entries IH ] using json_nested_ind;
    intros Hfloats Hstrings level.
  - reflexivity.
  - now destruct b.
  - apply intstr_encodable.
  - cbn [Encoder.iterencode]. destruct f as [ | [ | ] | neg m e ]; try reflexivity.
    apply float_token_encodable, Hfloats.
  - now apply encode_basestring_encodable.
  - destruct items as [ | x r ]; [ reflexivity | ].
    cbn [Encoder.iterencode]. rewrite !encodable_app, !newline_indent_encodable.
    cbn [andb]. rewrite andb_true_r.
    apply join_encodable.
    + now rewrite encodable_app, newline_indent_encodable.
    + apply json_all_list in Hfloats, Hstrings. revert IH Hfloats Hstrings.
      generalize (x :: r). clear x r. intros l IH.
      induction IH as [ | y l Hy _ IHl ]; [ constructor | ].
      intros F S. inversion F; subst. inversion S; subst. cbn [List.map].
      constructor; [ now apply Hy | now apply IHl ].
  - destruct entries as [ | kv r ]; [ reflexivity | ].
    cbn [Encoder.iterencode]. rewrite !encodable_app, !newline_indent_encodable.
    cbn [andb]. rewrite andb_true_r.
    apply join_encodable.
    + now rewrite encodable_app, newline_indent_encodable.
    + apply json_all_dict in Hfloats, Hstrings. revert IH Hfloats Hstrings.
      generalize (kv :: r). clear kv r. intros l IH.
      induction IH as [ | [ k y ] l Hy _ IHl ]; [ constructor | ].
      cbn [snd] in Hy.
      intros F S. inversion F as [ | ? ? [ _ F1 ] F2 ]; subst.
      inversion S as [ | ? ? [ K1 S1 ] S2 ]; subst. cbn [List.map fst snd] in *.
      constructor; [ | now apply IHl ].
      rewrite !encodable_app, (encode_basestring_encodable k K1).
      now rewrite (Hy F1 S1).
Qed.

Lemma escape_char_encodable_inv (c : N) :
  encodable (Encoder.escape_char c) = true -> encodable [c] = true.
Proof.
  unfold Encoder.escape_char.
  repeat match goal with
    | |- encodable (if ?b then _ else _) = true -> _ =>
        let E := fresh "E" in
        destruct b eqn:E;
          [ intros _; first [ apply N.eqb_eq in E | apply N.ltb_lt in E ];
            apply ascii_encodable; constructor; [ lia | constructor ] | ]
    end.
  exact (fun H => H).
Qed.

Lemma encode_basestring_encodable_inv (s : pystr) :
  encodable (Encoder.encode_basestring s) = true -> encodable s = true.
Proof.
  unfold Encoder.encode_basestring. rewrite !encodable_app.
  intros H. apply andb_true_iff in H. destruct H as [ _ H ].
  apply andb_true_iff in H. destruct H as [ H _ ].
  induction s as [ | c r IH ]; [ reflexivity | ].
  cbn [List.flat_map] in H. rewrite encodable_app in H.
  apply andb_true_iff in H. destruct H as [ Hc Hr ].
  change (c :: r) with ([c] ++ r). rewrite encodable_app.
  now rewrite (escape_char_encodable_inv c Hc), (IH Hr).
Qed.

Lemma join_encodable_inv (sep : pystr) (parts : list pystr) :
  encodable (Encoder.join sep parts) = true ->
  List.Forall (fun part => encodable part = true) parts.
Proof.
  induction parts as [ | part rest IH ]; [ constructor | ].
  destruct rest as [ | next rest' ].
  - intros H. constructor; [ exact H | constructor ].
  - change (Encoder.join sep (part :: next :: rest'))
      with (part ++ sep ++ Encoder.join sep (next :: rest')).
    rewrite !encodable_app. intros H.
    apply andb_true_iff in H. destruct H as [ Hpart H ].
    apply andb_true_iff in H. destruct H as [ _ H ].
    constructor; [ exact Hpart | now apply IH ].
Qed.

(** A surrogate in a string of a value is a surrogate in its text. *)
Lemma iterencode_encodable_inv (float_repr : pyfloat -> pystr) (v : json) :
  forall level,
    encodable (Encoder.iterencode float_repr level v) = true ->
    encodable_strings v.
Proof.
  unfold encodable_strings.
  induction v as [ | b | z | f | s | items IH | entries IH ] using json_nested_ind;
    intros level H; try exact I.
  - now apply encode_basestring_encodable_inv.
  - apply json_all_list.
    destruct items as [ | x r ]; [ constructor | ].
    cbn [Encoder.iterencode] in H. rewrite !encodable_app in H.
    apply andb_true_iff in H. destruct H as [ _ H ].
    apply andb_true_iff in H. destruct H as [ _ H ].
    apply andb_true_iff in H. destruct H as [ H _ ].
    apply join_encodable_inv in H. revert IH H.
    generalize (x :: r). clear x r. intros l IH.
    induction IH as [ | y l Hy _ IHl ]; [ constructor | ].
    cbn [List.map]. intros H. inversion H; subst.
    constructor; [ now apply (Hy (S level)) | now apply IHl ].
  - apply json_all_dict.
    destruct entries as [ | kv r ]; [ constructor | ].
    cbn [Encoder.iterencode] in H. rewrite !encodable_app in H.
    apply andb_true_iff in H. destruct H as [ _ H ].
    apply andb_true_iff in H. destruct H as [ _ H ].
    apply andb_true_iff in H. destruct H as [ H _ ].
    apply join_encodable_inv in H. revert IH H.
    generalize (kv :: r). clear kv r. intros l IH.
    induction IH as [ | [ k y ] l Hy _ IHl ]; [ constructor | ].
    cbn [List.map fst snd] in *. intros H.
    apply List.Forall_cons_iff in H. destruct H as [ Hhead Htail ].
    rewrite !encodable_app in Hhead.
    apply andb_true_iff in Hhead. destruct Hhead as [ Hk Hhead ].
    apply andb_true_iff in Hhead. destruct Hhead as [ _ Hvalue ].
    constructor; [ | now apply IHl ].
    split; [ now apply encode_basestring_encodable_inv | now apply (Hy (S level)) ].
Qed.

Lemma json_all_and Pf Ps (v : json) :
  json_all Pf (fun _ => True) v -> json_all (fun _ => True) Ps v ->
  json_all Pf Ps v.
Proof.
  induction v as [ | b | z | f | s | items IH | entries IH ] using json_nested_ind;
    intros F S; try exact I; try assumption.
  - apply json_all_list in F, S. apply json_all_list.
    induction IH as [ | y l Hy _ IHl ]; [ constructor | ].
    inversion F; subst. inversion S; subst. constructor; auto.
  - apply json_all_dict in F, S. apply json_all_dict.
    induction IH as [ | [ k y ] l Hy _ IHl ]; [ constructor | ].
    inversion F as [ | ? ? [ _ F1 ] F2 ]; subst.
    inversion S as [ | ? ? [ K1 S1 ] S2 ]; subst.
    cbn [fst snd] in *. constructor; auto.
Qed.

Section BytesRoundTrip.

Variable rt : Runtime.

(** The bytes of a bundle that can be written, and what they decode to. *)
Lemma encode_bundle_bytes (b : json) :
  python_floats rt b -> encodable_strings b -> dump_limit rt b = None ->
  exists data,
    Utf8.encode (Encoder.dumps (repr_float rt) b ++ [10%N]) = Some data
    /\ encode_bundle rt b = ret data
    /\ Utf8.decode data = Some (Encoder.dumps (repr_float rt) b ++ [10%N]).
Proof.
  intros Hfloats Hstrings Hlimit.
  assert (Htext : encodable (Encoder.dumps (repr_float rt) b ++ [10%N]) = true).
  { rewrite encodable_app. unfold Encoder.dumps.
    now rewrite (iterencode_encodable rt b Hfloats Hstrings 0%nat). }
  destruct (utf8_encode_total _ Htext) as [ data Hdata ].
  exists data. split; [ exact Hdata | split ].
  - unfold encode_bundle. now rewrite Hlimit, Hdata.
  - now apply utf8_decode_encode.
Qed.

Lemma encode_bundle_refuses (b : json) :
  ~ encodable_strings b -> dump_limit rt b = None ->
  encode_bundle rt b =
    raise (Exception (lit "UnicodeEncodeError")
             (codec_error rt (Encoder.dumps (repr_float rt) b ++ [10%N]))).
Proof.
  intros Hstrings Hlimit. unfold encode_bundle. rewrite Hlimit.
  rewrite utf8_encode_refuses; [ reflexivity | ].
  destruct (encodable (Encoder.dumps (repr_float rt) b ++ [10%N])) eqn:Htext;
    [ | reflexivity ].
  destruct Hstrings. rewrite encodable_app in Htext.
  apply andb_true_iff in Htext. destruct Htext as [ Htext _ ].
  exact (iterencode_encodable_inv (repr_float rt) b 0%nat Htext).
Qed.

Lemma decode_bundle_bytes (b : json) (data : list N) :
  distinct_keys b -> python_floats rt b ->
  load_limit rt (Encoder.dumps (repr_float rt) b ++ [10%N]) = None ->
  Utf8.decode data = Some (Encoder.dumps (repr_float rt) b ++ [10%N]) ->
  decode_bundle rt data = ret b.
Proof.
  intros Hkeys Hfloats Hlimit Hdata. unfold decode_bundle. rewrite Hdata.
  apply json_load_intro; [ exact Hlimit | ].
  apply loads_dumps. now apply python_values_valid.
Qed.

End BytesRoundTrip.

(** The [repr] of the sample runtime is a number with a fraction. *)
Lemma sample_float_token : float_token (lit "0.0").
Proof.
  exists [], [48%N], [46%N; 48%N], [].
  split; [ reflexivity | ]. split; [ now left | ].
  split; [ now left | ]. split.
  - right. exists 48%N, []. split; [ reflexivity | ].
    constructor; [ lia | constructor ].
  - split; [ now left | ]. left. discriminate.
Qed.

(** C7, as the claim states it for every valid bundle, fails. A metadata
    file may hold a surrogate, written as the escape of its code point:
    [json.load] reads it, the credentials pass the check and [main]
    builds the bundle; its keys are distinct and it holds no float; yet
    it is not encoded, the UTF-8 encoder of the output file refuses its
    text with [UnicodeEncodeError]. *)
Lemma lone_surrogate_is_not_encoded :
  let meta :=
    JDict [ (lit "app_id", JInt 12345); (lit "app_hash", JStr (lit "abc"));
            (lit "note", JStr [55296%N]) ] in
  let b :=
    make_bundle (lit "acct1") (lit "prod") (JInt 12345) (JStr (lit "abc"))
      JNull JNull Sample.token meta in
  (x <- load_metadata Sample.runtime (file_world surrogate_metadata_text)
          (metadata (parse_args Sample.cli)) ;;
   bundle_of (file_world surrogate_metadata_text) (parse_args Sample.cli) x) = ret b
  /\ distinct_keys b
  /\ python_floats Sample.runtime b
  /\ encode_bundle Sample.runtime b
     = raise (Exception (lit "UnicodeEncodeError") (lit "surrogates not allowed")).
Proof.
  split; [ reflexivity | ]. split; [ | split; [ | reflexivity ] ].
  - cbn [make_bundle distinct_keys List.map fst].
    split; [ repeat (constructor; [ cbv; intuition discriminate | ]); constructor | ].
    repeat (split; try exact I).
    repeat (constructor; [ cbv; intuition discriminate | ]). constructor.
  - cbn. tauto.
Qed.

(** C7, amended. Encoding is a function of the bundle that writes the
    keys in the order the dict holds them. For every bundle [b] as Python
    holds it (no key twice in a dict, finite floats with the [repr] that
    CPython gives them) that is within the limits of the interpreter when
    it is written and when its text is read: if no string of [b] holds a
    surrogate, the bundle is encoded, its bytes are the UTF-8 encoding of
    the text [json.dump] writes and the line feed, decoding them gives
    [b] back, and whatever they decode to has these bytes for encoding,
    the keys of [b] in the same order and every metadata key with its
    value; if a string of [b] holds a surrogate, the bundle is not
    encoded: the encoder raises [UnicodeEncodeError]. *)
Theorem bundle_round_trip (rt : Runtime) (b : json) :
  distinct_keys b ->
  python_floats rt b ->
  dump_limit rt b = None ->
  load_limit rt (Encoder.dumps (repr_float rt) b ++ [10%N]) = None ->
  (encodable_strings b ->
   exists data,
     encode_bundle rt b = ret data
     /\ Utf8.encode (Encoder.dumps (repr_float rt) b ++ [10%N]) = Some data
     /\ decode_bundle rt data = ret b
     /\ forall b',
          decode_bundle rt data = ret b' ->
          encode_bundle rt b' = ret data
          /\ keys_of b' = keys_of b
          /\ forall entries,
               field b (lit "metadata") = Some (JDict entries) ->
               exists entries',
                 field b' (lit "metadata") = Some (JDict entries')
                 /\ dict_keys entries' = dict_keys entries
                 /\ forall key, dict_lookup entries' key = dict_lookup entries key)
  /\ (~ encodable_strings b ->
      encode_bundle rt b =
        raise (Exception (lit "UnicodeEncodeError")
                 (codec_error rt (Encoder.dumps (repr_float rt) b ++ [10%N])))).
Proof.
  intros Hkeys Hfloats Hdump Hload. split.
  - intros Hstrings.
    destruct (encode_bundle_bytes rt b Hfloats Hstrings Hdump)
      as (data & Hutf8 & Hencode & Hdecode).
    pose proof (decode_bundle_bytes rt b data Hkeys Hfloats Hload Hdecode) as Hback.
    exists data. repeat (split; [ assumption | ]).
    intros b' Hb'. rewrite Hback in Hb'. injection Hb' as <-.
    split; [ exact Hencode | ]. split; [ reflexivity | ].
    intros entries Hmeta. now exists entries.
  - intros Hstrings. now apply encode_bundle_refuses.
Qed.

Lemma bundle_round_trip_witness :
  exists data,
    encode_bundle Sample.runtime
      (make_bundle (lit "acct1") (lit "prod") (JInt 12345) (JStr (lit "abc"))
         (JStr (lit "+15550100")) JNull Sample.token
         (JDict (Sample.meta ++ [(lit "seen", JFloat FNaN);
                                  (lit "ratio", JFloat (FFinite false 0 0));
                                  (lit "city", JStr [90%N; 252%N; 114%N; 128512%N]);
                                  (lit "tags", JList [JBool true; JInt (-7)])])))
    = ret data
    /\ decode_bundle Sample.runtime data
       = ret (make_bundle (lit "acct1") (lit "prod") (JInt 12345) (JStr (lit "abc"))
                (JStr (lit "+15550100")) JNull Sample.token
                (JDict (Sample.meta ++ [(lit "seen", JFloat FNaN);
                                         (lit "ratio", JFloat (FFinite false 0 0));
                                         (lit "city",
                                          JStr [90%N; 252%N; 114%N; 128512%N]);
                                         (lit "tags",
                                          JList [JBool true; JInt (-7)])]))).
Proof.
  destruct (bundle_round_trip Sample.runtime
              (make_bundle (lit "acct1") (lit "prod") (JInt 12345) (JStr (lit "abc"))
                 (JStr (lit "+15550100")) JNull Sample.token
                 (JDict (Sample.meta ++ [(lit "seen", JFloat FNaN);
                                          (lit "ratio", JFloat (FFinite false 0 0));
                                          (lit "city",
                                           JStr [90%N; 252%N; 114%N; 128512%N]);
                                          (lit "tags",
                                           JList [JBool true; JInt (-7)])]))))
    as [ Hround _ ].
  - cbn [make_bundle distinct_keys List.map fst Sample.meta List.app].
    split; [ repeat (constructor; [ cbv; intuition discriminate | ]); constructor | ].
    repeat (split; try exact I);
      repeat (constructor; [ cbv; intuition discriminate | ]); constructor.
  - unfold python_floats.
    cbn [make_bundle json_all Sample.meta List.app].
    repeat match goal with
      | |- _ /\ _ => split
      end; try exact I.
    split; [ exact sample_float_token | reflexivity ].
  - reflexivity.
  - reflexivity.
  - destruct Hround as (data & Hencode & _ & Hdecode & _).
    + cbn. tauto.
    + exists data. split; assumption.
Defined.

(** ** Reading the bundle file again *)

(** X8. The file a successful run writes can be read again by
    [load_metadata]: when every finite float of the input metadata has
    the [repr] CPython gives it, and reading the file meets no limit of
    the interpreter (the bundle nests one level deeper than the metadata
    did), loading the written file gives the emitted bundle, and its
    [metadata] member is the input metadata. *)
Theorem written_file_loads_back (rt : Runtime) (w : World) (args : Args)
    (meta : json) (written : Written) (w' : World) (p : path) :
  load_metadata rt w (metadata args) = ret meta ->
  python_floats rt meta ->
  main rt w args = ret written ->
  read_text w' p = ret (written_text written) ->
  load_limit rt (written_text written) = None ->
  exists bundle,
    emits rt w args bundle
    /\ load_metadata rt w' p = ret bundle
    /\ field bundle (lit "metadata") = Some meta.
Proof.
  intros Hload Hfloats Hmain Hread Hlimit.
  assert (Hvalid : valid (repr_float rt) (parse_float rt) meta).
  { apply python_values_valid; [ | exact Hfloats ].
    exact (loaded_metadata_keys_distinct _ _ _ _ Hload). }
  destruct (written_bundle_reads_back rt w args meta written Hload Hvalid Hmain)
    as (bundle & Hemits & Hloads & Hfield).
  exists bundle. split; [ exact Hemits | ]. split; [ | exact Hfield ].
  unfold load_metadata. rewrite Hread. cbn [bind ret].
  now apply json_load_intro.
Qed.

Lemma written_file_loads_back_witness :
  exists bundle,
    emits Sample.runtime (Sample.world (JDict Sample.meta)) (parse_args Sample.cli)
          bundle
    /\ load_metadata Sample.runtime
         (file_world
            (Encoder.dumps (repr_float Sample.runtime)
               (make_bundle (lit "acct1") (lit "prod") (JInt 12345)
                  (JStr (lit "abc")) (JStr (lit "+15550100")) JNull
                  Sample.token (JDict Sample.meta)) ++ [10%N]))
         (opt_output Sample.cli) = ret bundle
    /\ field bundle (lit "metadata") = Some (JDict Sample.meta).
Proof.
  apply (written_file_loads_back Sample.runtime (Sample.world (JDict Sample.meta))
           (parse_args Sample.cli) (JDict Sample.meta)
           {| written_to := opt_output Sample.cli;
              written_text :=
                Encoder.dumps (repr_float Sample.runtime)
                  (make_bundle (lit "acct1") (lit "prod") (JInt 12345)
                     (JStr (lit "abc")) (JStr (lit "+15550100")) JNull
                     Sample.token (JDict Sample.meta)) ++ [10%N] |}).
  - reflexivity.
  - cbn. tauto.
  - reflexivity.
  - reflexivity.
  - reflexivity.
Defined.

(** ** Metadata with a surrogate *)

Lemma main_wrote (rt : Runtime) (w : World) (args : Args) (written : Written) :
  main rt w args = ret written ->
  write_output w (output args) (written_text written) = ret tt.
Proof.
  unfold main.
  destruct (load_metadata rt w (metadata args)) as [ e | meta ]; cbn [bind];
    [ discriminate | ].
  destruct (bundle_of w args meta) as [ e | bundle ]; cbn [bind]; [ discriminate | ].
  destruct (write_output w (output args) _) as [ e | [] ] eqn:Hwrite; cbn [bind];
    [ discriminate | ].
  intros H. injection H as <-. exact Hwrite.
Qed.

(** X12. A metadata file may hold a surrogate, written as the escape of
    its code point. When the output step goes through the UTF-8 codec,
    such metadata is never exported: whatever the credentials and the
    command line, no bundle is written, the run fails and ends with
    status 1, because the bundle embeds the whole metadata and the
    encoder refuses the text. *)
Theorem surrogate_metadata_is_not_exported (rt : Runtime) (w : World)
    (c : CommandLine) (meta : json) :
  utf8_output w ->
  load_metadata rt w (metadata (parse_args c)) = ret meta ->
  ~ encodable_strings meta ->
  (exists e, main rt w (parse_args c) = raise e)
  /\ (forall bundle, ~ emits rt w (parse_args c) bundle)
  /\ exit_status (run rt w c) = 1.
Proof.
  intros Hcodec Hload Hmeta.
  assert (Hnever : forall written, main rt w (parse_args c) <> ret written).
  { intros written Hmain.
    pose proof (main_wrote _ _ _ _ Hmain) as Hwrite.
    destruct (main_emits _ _ _ _ Hmain) as (bundle & Hemits & _ & Htext).
    destruct (emits_inv _ _ _ _ Hemits)
      as (entries & session_name & token & Hload' & _ & _ & _ & _ & ->).
    rewrite Hload in Hload'. injection Hload' as ->.
    apply Hcodec in Hwrite. rewrite Htext, encodable_app in Hwrite.
    apply andb_true_iff in Hwrite. destruct Hwrite as [ Hwrite _ ].
    apply (iterencode_encodable_inv (repr_float rt) _ 0%nat) in Hwrite.
    unfold encodable_strings, make_bundle in Hwrite.
    apply json_all_dict in Hwrite.
    apply Hmeta. unfold encodable_strings.
    repeat (apply List.Forall_cons_iff in Hwrite; destruct Hwrite as [ ? Hwrite ]).
    cbn [snd] in *. tauto. }
  destruct (main rt w (parse_args c)) as [ e | written ] eqn:Hmain.
  - split; [ now exists e | ]. split.
    + intros bundle [ _ Hemit ]. rewrite Hmain in Hemit. discriminate.
    + rewrite (run_failure rt w c e Hmain). now destruct e.
  - now destruct (Hnever written).
Qed.

Lemma surrogate_metadata_is_not_exported_witness :
  exists e,
    main Sample.runtime
      (codec_world Sample.runtime surrogate_metadata_text (fun _ => lit "{"))
      (parse_args Sample.cli) = raise e.
Proof.
  apply (surrogate_metadata_is_not_exported Sample.runtime
           (codec_world Sample.runtime surrogate_metadata_text (fun _ => lit "{"))
           Sample.cli
           (JDict [ (lit "app_id", JInt 12345); (lit "app_hash", JStr (lit "abc"));
                    (lit "note", JStr [55296%N]) ])).
  - intros p text. cbn [codec_world write_output].
    destruct (encodable text); [ reflexivity | discriminate ].
  - reflexivity.
  - cbn. intros H. decompose [and] H. discriminate.
Defined.

(** ** The metadata and the secret in the file *)







